(** * devevents: the Event model's pre-save hook and the GET /api/events/[slug] handler

    A shallow embedding of
      - src/database/event.model.ts      (schema, [EventSchema.pre('save')])
      - src/app/api/events/[slug]/route.ts   ([connectToDatabase], [GET])
    together with the parts of the JavaScript runtime the two files lean on
    (strings as sequences of UTF-16 code units, the regular expressions that
    occur in the sources, [Date] parsing and [toISOString]).

    Part I holds the definitions, Part II the lemmas and theorems about
    the documented behaviour, Part III further properties of the code.

    What is modelled, and how:
      - strings are lists of code units ([N]); [toLowerCase], [trim],
        [includes] and [split] are functions on them;
      - the six regular expressions of the sources are terms of a small
        regex type, run by a backtracking matcher ([rests], [test],
        [replace]); Part II shows which function each [replace] of the slug
        derivation computes;
      - [Date] follows ECMA-262: time values are integers of milliseconds,
        the calendar functions are the standard's, [Date.parse] is written
        out for the date-only and the zoned date-time forms and is a
        parameter ([host]) on every other string;
      - Mongoose enters through three contracts: [isModified] is a
        parameter, the setters declared for a path are applied on
        assignment, and a hook that calls [next] with an error aborts the
        save;
      - the handler runs in a [World] (the environment variable, the
        connection cached under [global], the backend), leaves a trace of
        effects and returns or throws. *)

From Stdlib Require Import ZArith NArith List String Ascii Bool Lia.
Import ListNotations.

Set Warnings "-notation-for-abbreviation".

(* ====================================================================== *)
(** * Part I.  Definitions                                                  *)
(* ====================================================================== *)

(** ** JavaScript strings *)

(** A JavaScript string is a finite sequence of UTF-16 code units. *)
Notation jsstring := (list N) (only parsing).

(** String literals of the sources are written [js "..."]. *)
Definition js (s : string) : jsstring :=
  map N_of_ascii (list_ascii_of_string s).

Definition jsstring_eqb (a b : jsstring) : bool :=
  if list_eq_dec N.eq_dec a b then true else false.

Section CharClasses.
Local Open Scope N_scope.

Definition in_range (lo hi c : N) : bool := (lo <=? c) && (c <=? hi).

Definition is_digit (c : N) : bool := in_range 48 57 c.        (* 0-9 *)
Definition is_lower (c : N) : bool := in_range 97 122 c.       (* a-z *)
Definition is_upper (c : N) : bool := in_range 65 90 c.        (* A-Z *)

Definition hyphen : N := 45.
Definition is_hyphen (c : N) : bool := c =? hyphen.

(** [\w] without the [u] and [i] flags: [A-Za-z0-9_]. *)
Definition is_word (c : N) : bool :=
  is_lower c || is_upper c || is_digit c || (c =? 95).

(** [\s], which is also what [String.prototype.trim] removes: the
    WhiteSpace and LineTerminator code points of ECMAScript
    (TAB LF VT FF CR, SPACE, NBSP, U+1680, U+2000..U+200A, U+2028, U+2029,
    U+202F, U+205F, U+3000, U+FEFF). *)
Definition is_space (c : N) : bool :=
  in_range 9 13 c || (c =? 32) || (c =? 160) || (c =? 5760)
  || in_range 8192 8202 c || (c =? 8232) || (c =? 8233) || (c =? 8239)
  || (c =? 8287) || (c =? 12288) || (c =? 65279).

(** The class [a-z0-9-] of the route's [slugPattern]. *)
Definition is_slug_char (c : N) : bool :=
  is_lower c || is_digit c || is_hyphen c.

(** What [/[^\w\s-]/] does NOT match. *)
Definition is_word_space_hyphen (c : N) : bool :=
  is_word c || is_space c || is_hyphen c.

(** [toLowerCase] on one code unit.  Only the code units whose lower-case
    form contains a Basic Latin letter are mapped: A-Z, U+0130 (to "i"
    followed by U+0307) and U+212A KELVIN SIGN (to "k").  Every other cased
    letter has a lower-case form outside Basic Latin and is left as it is
    here; in both places where the sources lower-case a string the result
    is then compared against ASCII classes only (the hook deletes every
    unit outside [\w\s-], the route tests [^[a-z0-9-]+$]), and neither the
    letter nor its lower-case form is in them. *)
Definition lower_unit (c : N) : jsstring :=
  if is_upper c then [c + 32]
  else if c =? 304 then [105; 775]
  else if c =? 8490 then [107]
  else [c].
End CharClasses.

Definition toLowerCase (s : jsstring) : jsstring := flat_map lower_unit s.

Fixpoint trimStart (s : jsstring) : jsstring :=
  match s with
  | c :: r => if is_space c then trimStart r else s
  | [] => []
  end.

Definition trimEnd (s : jsstring) : jsstring := rev (trimStart (rev s)).

Definition trim (s : jsstring) : jsstring := trimEnd (trimStart s).

(** [s.includes(needle)] *)
Fixpoint startsWith (needle s : jsstring) : bool :=
  match needle, s with
  | [], _ => true
  | n :: needle', c :: s' => N.eqb n c && startsWith needle' s'
  | _ :: _, [] => false
  end.

Fixpoint includes (needle s : jsstring) : bool :=
  startsWith needle s
  || match s with
     | [] => false
     | _ :: s' => includes needle s'
     end.

(** [s.split(sep)] for a separator of one code unit: the pieces between the
    occurrences of [sep], never an empty list. *)
Fixpoint split (sep : N) (s : jsstring) : list jsstring :=
  match s with
  | [] => [[]]
  | c :: r =>
      if N.eqb c sep then [] :: split sep r
      else match split sep r with
           | piece :: pieces => (c :: piece) :: pieces
           | [] => [[c]]
           end
  end.

(** ** Regular expressions

    The fragment of JavaScript regular expressions that the two source files
    use: character classes, the assertions [^] and [$] (no [m] flag),
    sequence, alternation, [?] and [+] over a class, all greedy.

    A cursor is the rest of the input together with a flag telling whether
    the cursor still stands at the start of the input.  [rests r k] lists the
    cursors at which a match of [r] begun at [k] can end, in the order in
    which a backtracking matcher tries them. *)

Inductive regex : Type :=
| Cls (p : N -> bool)
| Bol
| Eol
| Cat (r1 r2 : regex)
| Alt (r1 r2 : regex)
| Opt (r : regex)
| PlusCls (p : N -> bool).

Notation cursor := (bool * list N)%type (only parsing).

Fixpoint plus_rests (p : N -> bool) (s : jsstring) : list jsstring :=
  match s with
  | c :: t => if p c then plus_rests p t ++ [t] else []
  | [] => []
  end.

Fixpoint rests (r : regex) (k : cursor) : list cursor :=
  match r with
  | Cls p =>
      match snd k with
      | c :: t => if p c then [(false, t)] else []
      | [] => []
      end
  | Bol => if fst k then [k] else []
  | Eol => match snd k with [] => [k] | _ :: _ => [] end
  | Cat r1 r2 => flat_map (rests r2) (rests r1 k)
  | Alt r1 r2 => rests r1 k ++ rests r2 k
  | Opt r1 => rests r1 k ++ [k]
  | PlusCls p => map (pair false) (plus_rests p (snd k))
  end.

(** [search r bol s]: does [r] match somewhere in [s]? *)
Fixpoint search (r : regex) (bol : bool) (s : jsstring) : bool :=
  match rests r (bol, s) with
  | _ :: _ => true
  | [] => match s with
          | _ :: t => search r false t
          | [] => false
          end
  end.

(** [r.test(s)] *)
Definition test (r : regex) (s : jsstring) : bool := search r true s.

(** [s.replace(r, rep)] for a regex with the [g] flag and a replacement
    string without [$]: scan from the left, at each position take the first
    match the backtracking order offers, emit [rep] for it and go on behind
    it (one unit further after an empty match). *)
Fixpoint replace_from (fuel : nat) (r : regex) (rep : jsstring)
         (bol : bool) (s : jsstring) : jsstring :=
  match fuel with
  | O => s
  | S fuel' =>
      match rests r (bol, s) with
      | (_, s') :: _ =>
          if (List.length s' <? List.length s)%nat
          then rep ++ replace_from fuel' r rep false s'
          else match s with
               | c :: t => rep ++ c :: replace_from fuel' r rep false t
               | [] => rep
               end
      | [] =>
          match s with
          | c :: t => c :: replace_from fuel' r rep false t
          | [] => []
          end
      end
  end.

Definition replace (r : regex) (rep : jsstring) (s : jsstring) : jsstring :=
  replace_from (S (List.length s)) r rep true s.

Definition chr (a : ascii) : regex := Cls (N.eqb (N_of_ascii a)).
Definition rng (lo hi : ascii) : regex :=
  Cls (in_range (N_of_ascii lo) (N_of_ascii hi)).

(** ** The slug derivation of the pre-save hook (event.model.ts, 111-117) *)

(** [/[^\w\s-]/g] *)
Definition re_special : regex :=
  Cls (fun c => negb (is_word_space_hyphen c)).
(** [/\s+/g] *)
Definition re_spaces : regex := PlusCls is_space.
(** [/--+/g] *)
Definition re_hyphens : regex := Cat (Cls is_hyphen) (PlusCls is_hyphen).
(** [/^-+|-+$/g] *)
Definition re_edge_hyphens : regex :=
  Alt (Cat Bol (PlusCls is_hyphen)) (Cat (PlusCls is_hyphen) Eol).

(** The right-hand side of [this.slug = this.title.toLowerCase().trim()...]. *)
Definition slug_of_title (title : jsstring) : jsstring :=
  replace re_edge_hyphens []
    (replace re_hyphens [hyphen]
       (replace re_spaces [hyphen]
          (replace re_special []
             (trim (toLowerCase title))))).

(** *** The four replacements written out

    These are the functions the four [replace] calls are shown to compute in
    Part II; the properties of the slug are proved on them. *)

Fixpoint drop_while (p : N -> bool) (s : jsstring) : jsstring :=
  match s with
  | c :: t => if p c then drop_while p t else s
  | [] => []
  end.

(** Every maximal run of units in [p] becomes [rep]; [in_run] tells that the
    unit before [s] was in [p]. *)
Fixpoint squeeze (p : N -> bool) (rep : jsstring) (in_run : bool)
         (s : jsstring) : jsstring :=
  match s with
  | [] => []
  | c :: t =>
      if p c then
        if in_run then squeeze p rep true t else rep ++ squeeze p rep true t
      else c :: squeeze p rep false t
  end.

(** [s] without the units in [p] at its end. *)
Fixpoint strip_end (p : N -> bool) (s : jsstring) : jsstring :=
  match s with
  | [] => []
  | c :: t => if forallb p s then [] else c :: strip_end p t
  end.

Definition slug_written_out (title : jsstring) : jsstring :=
  strip_end is_hyphen
    (drop_while is_hyphen
       (squeeze is_hyphen [hyphen] false
          (squeeze is_space [hyphen] false
             (filter is_word_space_hyphen
                (trim (toLowerCase title)))))).

(** The alphabet of the slugs the hook derives: [a-z0-9-] and the
    underscore, which [\w] contains. *)
Definition is_slug_char_or_underscore (c : N) : bool :=
  is_slug_char c || N.eqb c 95.

Definition starts_with_hyphen (s : jsstring) : bool :=
  match s with
  | c :: _ => is_hyphen c
  | [] => false
  end.

Definition ends_with_hyphen (s : jsstring) : bool :=
  starts_with_hyphen (rev s).

Fixpoint has_double_hyphen (s : jsstring) : bool :=
  match s with
  | c :: t => (is_hyphen c && starts_with_hyphen t) || has_double_hyphen t
  | [] => false
  end.

(** ** JavaScript dates

    [Date] is part of the runtime, not of the repository; its functions are
    written here as ECMA-262 (sec. "Date Objects") defines them, over time
    values in milliseconds since 1970-01-01T00:00:00Z.  [None] stands for
    the time value NaN of an invalid date. *)

Module JsDate.
Local Open Scope Z_scope.

Definition msPerDay : Z := 86400000.
Definition msPerHour : Z := 3600000.
Definition msPerMinute : Z := 60000.
Definition msPerSecond : Z := 1000.

Definition Day (t : Z) : Z := t / msPerDay.

Definition DaysInYear (y : Z) : Z :=
  if (y mod 4 =? 0) && (negb (y mod 100 =? 0) || (y mod 400 =? 0))
  then 366 else 365.

Definition DayFromYear (y : Z) : Z :=
  365 * (y - 1970) + (y - 1969) / 4 - (y - 1901) / 100 + (y - 1601) / 400.

(** The largest [y] with [DayFromYear y <= d], found from an estimate that
    is off by one year at most. *)
Definition YearFromDay (d : Z) : Z :=
  let y0 := 1970 + (400 * d) / 146097 in
  if DayFromYear (y0 + 1) <=? d then y0 + 1
  else if DayFromYear y0 <=? d then y0
  else y0 - 1.

Definition YearFromTime (t : Z) : Z := YearFromDay (Day t).

Definition leapDays (y : Z) : Z := DaysInYear y - 365.
Definition InLeapYear (t : Z) : Z := leapDays (YearFromTime t).
Definition DayWithinYear (t : Z) : Z := Day t - DayFromYear (YearFromTime t).

(** Day within the year on which month [mn] (0 = January) starts. *)
Definition monthStart (leap mn : Z) : Z :=
  match mn with
  | 0 => 0
  | 1 => 31
  | 2 => 59 + leap
  | 3 => 90 + leap
  | 4 => 120 + leap
  | 5 => 151 + leap
  | 6 => 181 + leap
  | 7 => 212 + leap
  | 8 => 243 + leap
  | 9 => 273 + leap
  | 10 => 304 + leap
  | 11 => 334 + leap
  | _ => 365 + leap
  end.

Definition monthOfDay (leap d : Z) : Z :=
  if d <? monthStart leap 1 then 0
  else if d <? monthStart leap 2 then 1
  else if d <? monthStart leap 3 then 2
  else if d <? monthStart leap 4 then 3
  else if d <? monthStart leap 5 then 4
  else if d <? monthStart leap 6 then 5
  else if d <? monthStart leap 7 then 6
  else if d <? monthStart leap 8 then 7
  else if d <? monthStart leap 9 then 8
  else if d <? monthStart leap 10 then 9
  else if d <? monthStart leap 11 then 10
  else 11.

Definition MonthFromTime (t : Z) : Z :=
  monthOfDay (InLeapYear t) (DayWithinYear t).

Definition DateFromTime (t : Z) : Z :=
  DayWithinYear t - monthStart (InLeapYear t) (MonthFromTime t) + 1.

Definition HourFromTime (t : Z) : Z := (t / msPerHour) mod 24.
Definition MinFromTime (t : Z) : Z := (t / msPerMinute) mod 60.
Definition SecFromTime (t : Z) : Z := (t / msPerSecond) mod 60.
Definition msFromTime (t : Z) : Z := t mod msPerSecond.

Definition MakeTime (hour min sec ms : Z) : Z :=
  hour * msPerHour + min * msPerMinute + sec * msPerSecond + ms.

Definition MakeDay (year month date : Z) : Z :=
  let ym := year + month / 12 in
  let mn := month mod 12 in
  DayFromYear ym + monthStart (leapDays ym) mn + date - 1.

Definition MakeDate (day time : Z) : Z := day * msPerDay + time.

Definition TimeClip (t : Z) : option Z :=
  if Z.abs t <=? 8640000000000000 then Some t else None.

Definition DaysInMonth (year month : Z) : Z :=
  monthStart (leapDays year) (month + 1) - monthStart (leapDays year) month.

(** *** [Date.prototype.toISOString] *)

(** [n] in decimal on exactly [w] digits. *)
Fixpoint digits (w : nat) (n : Z) : jsstring :=
  match w with
  | O => []
  | S w' => digits w' (n / 10) ++ [Z.to_N (48 + n mod 10)]
  end.

(** Four digits for the years 0 to 9999, a sign and six digits otherwise. *)
Definition isoYear (y : Z) : jsstring :=
  if (0 <=? y) && (y <=? 9999) then digits 4 y
  else (if y <? 0 then js "-" else js "+") ++ digits 6 (Z.abs y).

Definition isoDate (t : Z) : jsstring :=
  isoYear (YearFromTime t) ++ js "-" ++ digits 2 (MonthFromTime t + 1)
    ++ js "-" ++ digits 2 (DateFromTime t).

Definition isoTime (t : Z) : jsstring :=
  digits 2 (HourFromTime t) ++ js ":" ++ digits 2 (MinFromTime t)
    ++ js ":" ++ digits 2 (SecFromTime t) ++ js "." ++ digits 3 (msFromTime t).

Definition toISOString (t : Z) : jsstring :=
  isoDate t ++ js "T" ++ isoTime t ++ js "Z".

(** *** [Date.parse]

    Of the ECMAScript date-time string format two shapes are interpreted
    here:
      - the date-only form [YYYY-MM-DD], which is read as UTC midnight;
      - the form [YYYY-MM-DDTHH:mm:ss], optionally [.sss], followed by the
        zone [Z] or an offset [+HH:mm] / [-HH:mm].
    Every other string (the remaining shapes of the format, the forms
    without zone, which are read in the host's local time, and whatever
    the engine accepts beyond the format) is left to [host], the rest of
    the engine's parser. *)

Definition digit (c : N) : option Z :=
  if is_digit c then Some (Z.of_N c - 48) else None.

Fixpoint number_from (acc : Z) (s : jsstring) : option Z :=
  match s with
  | [] => Some acc
  | c :: r => match digit c with
              | Some v => number_from (10 * acc + v) r
              | None => None
              end
  end.

Definition number (s : jsstring) : option Z :=
  match s with
  | [] => None
  | _ :: _ => number_from 0 s
  end.

Definition is_char (a : ascii) (c : N) : bool := N.eqb c (N_of_ascii a).

(** [YYYY-MM-DD] at the head of [s]: the day number and the rest. *)
Definition parse_ymd (s : jsstring) : option (Z * jsstring) :=
  match s with
  | y1 :: y2 :: y3 :: y4 :: h1 :: m1 :: m2 :: h2 :: d1 :: d2 :: rest =>
      match number [y1; y2; y3; y4], number [m1; m2], number [d1; d2] with
      | Some y, Some m, Some d =>
          if is_char "-" h1 && is_char "-" h2
             && (1 <=? m) && (m <=? 12)
             && (1 <=? d) && (d <=? DaysInMonth y (m - 1))
          then Some (MakeDay y (m - 1) d, rest)
          else None
      | _, _, _ => None
      end
  | _ => None
  end.

(** [HH:mm:ss] or [HH:mm:ss.sss] at the head of [s]: the time within the
    day and the rest. *)
Definition parse_hms (s : jsstring) : option (Z * jsstring) :=
  match s with
  | a1 :: a2 :: c1 :: b1 :: b2 :: c2 :: s1 :: s2 :: rest =>
      match number [a1; a2], number [b1; b2], number [s1; s2] with
      | Some h, Some m, Some sec =>
          if is_char ":" c1 && is_char ":" c2
             && (h <=? 23) && (m <=? 59) && (sec <=? 59)
          then
            match rest with
            | dot :: f1 :: f2 :: f3 :: rest' =>
                if is_char "." dot then
                  match number [f1; f2; f3] with
                  | Some ms => Some (MakeTime h m sec ms, rest')
                  | None => None
                  end
                else Some (MakeTime h m sec 0, rest)
            | _ => Some (MakeTime h m sec 0, rest)
            end
          else None
      | _, _, _ => None
      end
  | _ => None
  end.

(** [Z], [+HH:mm] or [-HH:mm], as all of [s]: the offset of the written
    time from UTC, in milliseconds. *)
Definition parse_zone (s : jsstring) : option Z :=
  match s with
  | [z] => if is_char "Z" z then Some 0 else None
  | [sg; a1; a2; c; b1; b2] =>
      match number [a1; a2], number [b1; b2] with
      | Some h, Some m =>
          if is_char ":" c && (h <=? 23) && (m <=? 59) then
            if is_char "+" sg then Some (MakeTime h m 0 0)
            else if is_char "-" sg then Some (- MakeTime h m 0 0)
            else None
          else None
      | _, _ => None
      end
  | _ => None
  end.

Definition parse_iso (s : jsstring) : option Z :=
  match parse_ymd s with
  | Some (day, []) => Some (MakeDate day 0)
  | Some (day, t :: rest) =>
      if is_char "T" t then
        match parse_hms rest with
        | Some (time, zone) =>
            match parse_zone zone with
            | Some offset => Some (MakeDate day time - offset)
            | None => None
            end
        | None => None
        end
      else None
  | None => None
  end.

Section Parse.
(** The engine's parser for the strings [parse_iso] does not interpret. *)
Variable host : jsstring -> option Z.

Definition parse (s : jsstring) : option Z :=
  match parse_iso s with
  | Some t => Some t
  | None => host s
  end.

(** [new Date(s)] for a string [s]: the time value of the new object. *)
Definition new_Date (s : jsstring) : option Z :=
  match parse s with
  | Some t => TimeClip t
  | None => None
  end.
End Parse.
End JsDate.

(** ** Values thrown and caught *)

(** What a [catch] clause can receive: an instance of [Error] with its
    [name] and [message], or any other value. *)
Inductive thrown : Type :=
| ErrorObject (name message : jsstring)
| NonError.

(** [new Error(message)] *)
Definition new_Error (message : string) : thrown :=
  ErrorObject (js "Error") (js message).

Inductive result (A : Type) : Type :=
| Return (a : A)
| Throw (e : thrown).
Arguments Return {A} a.
Arguments Throw {A} e.

(** ** src/database/event.model.ts *)

Module EventModel.

(** [interface IEvent]; the two timestamps are time values. *)
Record IEvent : Type := {
  title : jsstring;
  slug : jsstring;
  description : jsstring;
  overview : jsstring;
  image : jsstring;
  venue : jsstring;
  location : jsstring;
  date : jsstring;
  time : jsstring;
  mode : jsstring;
  audience : jsstring;
  agenda : list jsstring;
  organizer : jsstring;
  tags : list jsstring;
  createdAt : Z;
  updatedAt : Z
}.

(** Assignment to [this.slug]: the schema declares the path with
    [lowercase: true] and [trim: true], two setters that Mongoose applies
    to every value assigned. *)
Definition set_slug (v : jsstring) (this : IEvent) : IEvent :=
  {| title := title this; slug := trim (toLowerCase v);
     description := description this; overview := overview this;
     image := image this; venue := venue this; location := location this;
     date := date this; time := time this; mode := mode this;
     audience := audience this; agenda := agenda this;
     organizer := organizer this; tags := tags this;
     createdAt := createdAt this; updatedAt := updatedAt this |}.

(** Assignment to [this.date]; the path has no setter. *)
Definition set_date (v : jsstring) (this : IEvent) : IEvent :=
  {| title := title this; slug := slug this;
     description := description this; overview := overview this;
     image := image this; venue := venue this; location := location this;
     date := v; time := time this; mode := mode this;
     audience := audience this; agenda := agenda this;
     organizer := organizer this; tags := tags this;
     createdAt := createdAt this; updatedAt := updatedAt this |}.

(** The hook works on [this], which it mutates in place, and ends by
    calling [next]: a computation over the document that either goes on
    with a value or has called [next(err)] and returned. *)
Definition hook (A : Type) : Type := IEvent -> IEvent * result A.

Definition ret {A} (a : A) : hook A := fun this => (this, Return a).
Definition next_error {A} (e : thrown) : hook A := fun this => (this, Throw e).
Definition bind {A B} (m : hook A) (f : A -> hook B) : hook B :=
  fun this =>
    match m this with
    | (this', Return a) => f a this'
    | (this', Throw e) => (this', Throw e)
    end.
Definition this_ : hook IEvent := fun this => (this, Return this).
Definition assign (f : IEvent -> IEvent) : hook unit :=
  fun this => (f this, Return tt).
Definition when (c : bool) (m : hook unit) : hook unit :=
  if c then m else ret tt.

Declare Scope hook_scope.
Delimit Scope hook_scope with hook.
Notation "x <- m ;; k" := (bind m (fun x => k))
  (at level 100, m at next level, right associativity) : hook_scope.
Notation "m ;; k" := (bind m (fun _ => k))
  (at level 100, right associativity) : hook_scope.

(** [/^([0-1]?[0-9]|2[0-3]):[0-5][0-9]$/] *)
Definition timeRegex : regex :=
  Cat Bol
   (Cat (Alt (Cat (Opt (rng "0" "1")) (rng "0" "9"))
             (Cat (chr "2") (rng "0" "3")))
   (Cat (chr ":")
   (Cat (rng "0" "5")
   (Cat (rng "0" "9")
        Eol)))).

Section PreSave.
(** The engine's date parser beyond the shapes of [JsDate.parse_iso]. *)
Variable host : jsstring -> option Z.
(** [this.isModified(path)], Mongoose's change tracking. *)
Variable isModified : string -> bool.

Local Open Scope hook_scope.

(** [EventSchema.pre('save', function (next) { ... })] *)
Definition pre_save : hook unit :=
  (* Generate slug only if title is new or modified *)
  when (isModified "title")
    (this <- this_ ;;
     assign (set_slug (slug_of_title (title this)))) ;;
  (* Validate and normalize date to ISO format (YYYY-MM-DD) *)
  when (isModified "date")
    (this <- this_ ;;
     let dateObj := JsDate.new_Date host (date this) in
     match dateObj with
     | None => next_error (new_Error "Invalid date format")
     | Some t =>
         assign (set_date (hd [] (split (N_of_ascii "T")
                                    (JsDate.toISOString t))))
     end) ;;
  (* Normalize time format (HH:MM) *)
  when (isModified "time")
    (this <- this_ ;;
     if negb (test timeRegex (time this))
     then next_error (new_Error "Time must be in HH:MM format")
     else ret tt) ;;
  ret tt.

(** What [doc.save()] does from the hook on (the schema validation, which
    Mongoose runs ahead of the hook, is not part of the model): Mongoose
    runs the hook and, when the hook has called [next] with an error,
    writes nothing and rejects with that error; otherwise it hands the
    document, as the hook left it, to the storage backend.  [write] is the
    backend's write of a document into a collection (it may itself fail,
    for instance on the unique index of [slug]). *)
Variable write : list IEvent -> IEvent -> list IEvent * result unit.

Definition save (collection : list IEvent) (doc : IEvent)
  : list IEvent * result unit :=
  match pre_save doc with
  | (doc', Return _) => write collection doc'
  | (_, Throw e) => (collection, Throw e)
  end.
End PreSave.

(** *** Vocabulary for the statements about the hook *)

Definition date_error : thrown := new_Error "Invalid date format".
Definition time_error : thrown := new_Error "Time must be in HH:MM format".

(** [dateObj.toISOString().split('T')[0]] *)
Definition normalized_date (t : Z) : jsstring :=
  hd [] (split (N_of_ascii "T") (JsDate.toISOString t)).

(** The document after the slug step. *)
Definition after_title (isModified : string -> bool) (this : IEvent)
  : IEvent :=
  if isModified "title"%string
  then set_slug (slug_of_title (title this)) this
  else this.

(** The date check rejects the document. *)
Definition date_rejected (host : jsstring -> option Z)
           (isModified : string -> bool) (this : IEvent) : bool :=
  isModified "date"%string
  && match JsDate.new_Date host (date this) with
     | None => true
     | Some _ => false
     end.

(** The time check rejects the document. *)
Definition time_rejected (isModified : string -> bool) (this : IEvent)
  : bool :=
  isModified "time"%string && negb (test timeRegex (time this)).

(** The strings [H:MM] and [HH:MM] with hours 0-23 (leading zero optional
    below 10) and minutes 00-59. *)
Definition is_HH_MM (s : jsstring) : bool :=
  match s with
  | [h; c; m1; m2] =>
      in_range 48 57 h && N.eqb 58 c
      && in_range 48 53 m1 && in_range 48 57 m2
  | [h1; h2; c; m1; m2] =>
      ((in_range 48 49 h1 && in_range 48 57 h2)
       || (N.eqb 50 h1 && in_range 48 51 h2))
      && N.eqb 58 c
      && in_range 48 53 m1 && in_range 48 57 m2
  | _ => false
  end.

(** The strings of the form [dddd-dd-dd]. *)
Definition is_YYYY_MM_DD (s : jsstring) : bool :=
  match s with
  | [y1; y2; y3; y4; h1; m1; m2; h2; d1; d2] =>
      forallb is_digit [y1; y2; y3; y4; m1; m2; d1; d2]
      && is_hyphen h1 && is_hyphen h2
  | _ => false
  end.
End EventModel.

(** ** src/app/api/events/[slug]/route.ts *)

Module Route.
Import EventModel.

(** The value found under [slug] in the resolved [params].  The declared
    type is [string]; the handler tests the value at run time, so the
    other kinds of value are kept ([VObject] stands for every object,
    arrays included; numbers are integers here). *)
Inductive value : Type :=
| VUndefined
| VNull
| VBool (b : bool)
| VNumber (n : Z)
| VString (s : jsstring)
| VObject.

(** [!v] is [negb (truthy v)]. *)
Definition truthy (v : value) : bool :=
  match v with
  | VUndefined | VNull => false
  | VBool b => b
  | VNumber n => negb (n =? 0)%Z
  | VString s => match s with [] => false | _ :: _ => true end
  | VObject => true
  end.

Definition typeof (v : value) : jsstring :=
  match v with
  | VUndefined => js "undefined"
  | VNull => js "object"
  | VBool _ => js "boolean"
  | VNumber _ => js "number"
  | VString _ => js "string"
  | VObject => js "object"
  end.

(** The string a value of type string is; the handler calls string
    methods only behind [typeof slug !== 'string']. *)
Definition string_of (v : value) : jsstring :=
  match v with
  | VString s => s
  | _ => []
  end.

(** The process and the storage backend as one request finds them. *)
Record World : Type := {
  (** [process.env.MONGODB_URI]; [None] is [undefined] *)
  MONGODB_URI : option jsstring;
  (** whether [global.mongoose?.conn] is truthy *)
  global_mongoose_conn : bool;
  (** [await connect(uri)]: [None] when the promise resolves, the
      rejection otherwise *)
  connect : jsstring -> option thrown;
  (** the documents of the Event collection *)
  collection : list IEvent;
  (** the failure, if any, of a query by the given slug *)
  query_fault : jsstring -> option thrown
}.

(** What a run does to its surroundings, in order. *)
Inductive effect : Type :=
| ReadEnv                       (* process.env.MONGODB_URI *)
| ReadGlobal                    (* global.mongoose?.conn *)
| Connect (uri : jsstring)      (* connect(uri) *)
| FindOne (slug : jsstring)     (* Event.findOne({ slug }) *)
| ConsoleError (e : thrown).    (* console.error(..., error) *)

(** Computations of the handler: they read the world, leave a trace of
    effects and return or throw. *)
Definition io (A : Type) : Type := World -> list effect * result A.

Definition ret {A} (a : A) : io A := fun _ => ([], Return a).
Definition throw {A} (e : thrown) : io A := fun _ => ([], Throw e).
Definition bind {A B} (m : io A) (f : A -> io B) : io B :=
  fun w =>
    match m w with
    | (tr, Return a) => let (tr', r) := f a w in (tr ++ tr', r)
    | (tr, Throw e) => (tr, Throw e)
    end.

Declare Scope io_scope.
Delimit Scope io_scope with io.
Notation "x <- m ;; k" := (bind m (fun x => k))
  (at level 100, m at next level, right associativity) : io_scope.
Notation "m ;; k" := (bind m (fun _ => k))
  (at level 100, right associativity) : io_scope.

Definition read_env : io (option jsstring) :=
  fun w => ([ReadEnv], Return (MONGODB_URI w)).
Definition read_global : io bool :=
  fun w => ([ReadGlobal], Return (global_mongoose_conn w)).
Definition await_connect (uri : jsstring) : io unit :=
  fun w => ([Connect uri],
            match connect w uri with
            | None => Return tt
            | Some e => Throw e
            end).
(** [await Event.findOne({ slug }).lean()]: the first document whose slug
    is exactly [s], as plain data, or [null]. *)
Definition findOne (s : jsstring) : io (option IEvent) :=
  fun w => ([FindOne s],
            match query_fault w s with
            | Some e => Throw e
            | None =>
                Return (find (fun ev => jsstring_eqb (slug ev) s)
                             (collection w))
            end).

(** An environment variable is falsy when unset or empty. *)
Definition env_truthy (v : option jsstring) : bool :=
  match v with
  | Some (_ :: _) => true
  | _ => false
  end.

Definition env_string (v : option jsstring) : jsstring :=
  match v with
  | Some s => s
  | None => []
  end.

Local Open Scope io_scope.

Definition connectToDatabase : io unit :=
  uri <- read_env ;;
  if negb (env_truthy uri) then
    throw (new_Error "MONGODB_URI environment variable is not defined")
  else
    (* Check if already connected to avoid multiple connections *)
    conn <- read_global ;;
    if conn then ret tt
    else
      uri' <- read_env ;;
      await_connect (env_string uri').

(** The bodies that [NextResponse.json] serialises. *)
Inductive body : Type :=
| ErrorBody (error : jsstring)               (* { error } *)
| SuccessBody (data : IEvent).               (* { success: true, data } *)

Record response : Type := { payload : body; status : Z }.

Definition NextResponse_json (b : body) (st : Z) : response :=
  {| payload := b; status := st |}.

(** [/^[a-z0-9-]+$/] *)
Definition slugPattern : regex :=
  Cat Bol (Cat (PlusCls is_slug_char) Eol).

(** The [try] block of [GET]. *)
Definition GET_try (slug : value) : io response :=
  if negb (truthy slug)
     || negb (jsstring_eqb (typeof slug) (js "string"))
     || jsstring_eqb (trim (string_of slug)) []
  then
    ret (NextResponse_json (ErrorBody (js "Invalid slug parameter")) 400)
  else
    let sanitizedSlug := toLowerCase (trim (string_of slug)) in
    if negb (test slugPattern sanitizedSlug) then
      ret (NextResponse_json
             (ErrorBody (js "Slug contains invalid characters")) 400)
    else
      connectToDatabase ;;
      event <- findOne sanitizedSlug ;;
      match event with
      | None =>
          ret (NextResponse_json (ErrorBody (js "Event not found")) 404)
      | Some ev =>
          ret (NextResponse_json (SuccessBody ev) 200)
      end.

(** The [catch] block of [GET], behind [console.error]. *)
Definition GET_catch (error : thrown) : response :=
  match error with
  | ErrorObject name message =>
      if includes (js "MONGODB_URI") message then
        NextResponse_json (ErrorBody (js "Database configuration error")) 500
      else if jsstring_eqb name (js "CastError")
              || jsstring_eqb name (js "ValidationError") then
        NextResponse_json (ErrorBody (js "Invalid request parameters")) 400
      else
        NextResponse_json (ErrorBody (js "Internal server error")) 500
  | NonError =>
      NextResponse_json (ErrorBody (js "Internal server error")) 500
  end.

(** [GET]: the effects of a run and what is left after the [try]/[catch];
    [Throw] would be an error leaving the handler. *)
Definition GET (slug : value) : io response :=
  fun w =>
    match GET_try slug w with
    | (tr, Return r) => (tr, Return r)
    | (tr, Throw e) => (tr ++ [ConsoleError e], Return (GET_catch e))
    end.

(** *** A process

    The requests of one process in sequence.  The handler itself changes
    nothing that a later run reads; between two requests the environment
    variable may be set or deleted and other code of the application may
    store or drop a connection under [global.mongoose]. *)
Inductive step : Type :=
| Request (slug : value)
| SetEnv (v : option jsstring)
| SetConn (conn : bool).

Definition with_env (v : option jsstring) (w : World) : World :=
  {| MONGODB_URI := v; global_mongoose_conn := global_mongoose_conn w;
     connect := connect w; collection := collection w;
     query_fault := query_fault w |}.

Definition with_conn (conn : bool) (w : World) : World :=
  {| MONGODB_URI := MONGODB_URI w; global_mongoose_conn := conn;
     connect := connect w; collection := collection w;
     query_fault := query_fault w |}.

(** The responses of the requests among [steps], in order. *)
Fixpoint run (w : World) (steps : list step) : list response :=
  match steps with
  | [] => []
  | Request slug :: rest =>
      match snd (GET slug w) with
      | Return r => r :: run w rest
      | Throw _ => run w rest
      end
  | SetEnv v :: rest => run (with_env v w) rest
  | SetConn conn :: rest => run (with_conn conn w) rest
  end.

(** *** Vocabulary for the statements about the handler *)

(** [const sanitizedSlug = slug.trim().toLowerCase()] *)
Definition sanitize (s : jsstring) : jsstring := toLowerCase (trim s).

(** The parameter passes the shape validation: it is a string and not
    empty or white space only. *)
Definition shape_ok (slug : value) : bool :=
  match slug with
  | VString s => negb (forallb is_space s)
  | _ => false
  end.

(** The parameter passes both validations. *)
Definition valid_slug (slug : value) : bool :=
  shape_ok slug && test slugPattern (sanitize (string_of slug)).

(** The error thrown by [connectToDatabase] when the connection string is
    missing. *)
Definition configuration_error : thrown :=
  new_Error "MONGODB_URI environment variable is not defined".

(** The two tests of the [catch] block. *)
Definition mentions_MONGODB_URI (e : thrown) : bool :=
  match e with
  | ErrorObject _ message => includes (js "MONGODB_URI") message
  | NonError => false
  end.

Definition cast_or_validation (e : thrown) : bool :=
  match e with
  | ErrorObject name _ =>
      jsstring_eqb name (js "CastError")
      || jsstring_eqb name (js "ValidationError")
  | NonError => false
  end.

Definition error_response (message : string) (st : Z) : response :=
  NextResponse_json (ErrorBody (js message)) st.
End Route.

(** ** Sample documents and worlds, for the concrete runs *)

Module Samples.
Import EventModel Route.

Definition event (t sl d tm : string) : IEvent :=
  {| title := js t; slug := js sl;
     description := js "A conference"; overview := js "Talks and workshops";
     image := js "/images/event.png"; venue := js "Main hall";
     location := js "Berlin"; date := js d; time := js tm;
     mode := js "offline"; audience := js "Developers";
     agenda := [js "Opening"; js "Talks"]; organizer := js "DevEvents";
     tags := [js "web"]; createdAt := 0; updatedAt := 0 |}.

Definition my_event : IEvent :=
  event "My Event 2025" "my-event-2025" "2025-01-15" "09:30".

(** A process with the given environment variable and cache flag, a
    backend holding [docs] that answers every call. *)
Definition world (uri : option jsstring) (conn : bool) (docs : list IEvent)
  : World :=
  {| MONGODB_URI := uri; global_mongoose_conn := conn;
     connect := fun _ => None; collection := docs;
     query_fault := fun _ => None |}.

Definition uri : jsstring := js "mongodb://localhost:27017/devevents".

(** The same, with every query failing with [e]. *)
Definition faulty_world (e : thrown) : World :=
  {| MONGODB_URI := Some uri; global_mongoose_conn := false;
     connect := fun _ => None; collection := [my_event];
     query_fault := fun _ => Some e |}.

(** A configured process whose backend refuses every connection with [e]. *)
Definition unreachable_world (e : thrown) : World :=
  {| MONGODB_URI := Some uri; global_mongoose_conn := false;
     connect := fun _ => Some e; collection := [my_event];
     query_fault := fun _ => None |}.

(** Change tracking that reports exactly the listed paths. *)
Definition modified (paths : list string) : string -> bool :=
  fun p => existsb (String.eqb p) paths.

(** An engine that parses nothing beyond [JsDate.parse_iso]. *)
Definition no_host : jsstring -> option Z := fun _ => None.
End Samples.

(** ** Vocabulary for the further properties *)

Module Terms.
Import EventModel Route.

(** [this] with the two paths the hook assigns. *)
Definition with_slug_and_date (s d : jsstring) (this : IEvent) : IEvent :=
  {| title := title this; slug := s;
     description := description this; overview := overview this;
     image := image this; venue := venue this; location := location this;
     date := d; time := time this; mode := mode this;
     audience := audience this; agenda := agenda this;
     organizer := organizer this; tags := tags this;
     createdAt := createdAt this; updatedAt := updatedAt this |}.

(** The slug and the date a run of the hook leaves in the document. *)
Definition slug_after (isModified : string -> bool) (this : IEvent)
  : jsstring :=
  if isModified "title"%string then slug_of_title (title this) else slug this.

Definition date_after (host : jsstring -> option Z)
           (isModified : string -> bool) (this : IEvent) : jsstring :=
  if isModified "date"%string then
    match JsDate.new_Date host (date this) with
    | Some t => JsDate.isoDate t
    | None => date this
    end
  else date this.

(** A string begins, or ends, with white space. *)
Definition starts_with_space (s : jsstring) : bool :=
  match s with
  | c :: _ => is_space c
  | [] => false
  end.
Definition ends_with_space (s : jsstring) : bool :=
  starts_with_space (rev s).

(** A string has a unit of [\w]; has an underscore. *)
Definition has_word (s : jsstring) : bool := existsb is_word s.
Definition has_underscore (s : jsstring) : bool := existsb (N.eqb 95) s.

(** The time [h:mm] written the two ways [timeRegex] admits. *)
Definition two_digit_time (h m : Z) : jsstring :=
  JsDate.digits 2 h ++ js ":" ++ JsDate.digits 2 m.
Definition one_digit_time (h m : Z) : jsstring :=
  JsDate.digits 1 h ++ js ":" ++ JsDate.digits 2 m.

(** The effects of a run that reach the backend. *)
Definition is_Connect (e : effect) : bool :=
  match e with Connect _ => true | _ => false end.
Definition is_FindOne (e : effect) : bool :=
  match e with FindOne _ => true | _ => false end.

(** The error messages the handler can answer with. *)
Definition error_messages : list (jsstring * Z) :=
  [(js "Invalid slug parameter", 400%Z);
   (js "Slug contains invalid characters", 400%Z);
   (js "Invalid request parameters", 400%Z);
   (js "Event not found", 404%Z);
   (js "Database configuration error", 500%Z);
   (js "Internal server error", 500%Z)].

(** The answer to a slug that fails a validation. *)
Definition refusal (param : value) : response :=
  if shape_ok param then
    NextResponse_json (ErrorBody (js "Slug contains invalid characters")) 400
  else NextResponse_json (ErrorBody (js "Invalid slug parameter")) 400.

(** The answer to a query that went through. *)
Definition answer (found : option IEvent) : response :=
  match found with
  | None => NextResponse_json (ErrorBody (js "Event not found")) 404
  | Some ev => NextResponse_json (SuccessBody ev) 200
  end.

(** The first document of the collection with the given slug. *)
Definition lookup (w : World) (key : jsstring) : option IEvent :=
  find (fun ev => jsstring_eqb (slug ev) key) (collection w).

(** A world in which a request reaches the backend and is answered. *)
Definition backend_answers (w : World) (key : jsstring) : bool :=
  env_truthy (MONGODB_URI w)
  && (global_mongoose_conn w
      || match connect w (env_string (MONGODB_URI w)) with
         | None => true
         | Some _ => false
         end)
  && match query_fault w key with
     | None => true
     | Some _ => false
     end.
End Terms.

(* ====================================================================== *)
(** * Part II.  Lemmas and theorems                                         *)
(* ====================================================================== *)

(** ** Strings *)

Lemma jsstring_eqb_eq (a b : jsstring) : jsstring_eqb a b = true <-> a = b.
Proof.
  unfold jsstring_eqb. destruct (list_eq_dec N.eq_dec a b); split; congruence.
Qed.

Lemma jsstring_eqb_refl (a : jsstring) : jsstring_eqb a a = true.
Proof. now apply jsstring_eqb_eq. Qed.

Lemma trimStart_blank (s : jsstring) :
  forallb is_space s = true -> trimStart s = [].
Proof.
  induction s as [|c s IH]; simpl; [reflexivity|].
  intros H. apply andb_true_iff in H as [Hc Hs]. rewrite Hc. now apply IH.
Qed.

Lemma trimStart_nil_blank (s : jsstring) :
  trimStart s = [] -> forallb is_space s = true.
Proof.
  induction s as [|c s IH]; simpl; [reflexivity|].
  destruct (is_space c); [exact IH | discriminate].
Qed.

Lemma trimStart_suffix (s : jsstring) :
  exists p, s = p ++ trimStart s /\ forallb is_space p = true.
Proof.
  induction s as [|c s [p [Hp Hb]]]; simpl.
  - now exists [].
  - destruct (is_space c) eqn:Hc.
    + exists (c :: p). simpl. rewrite Hc, Hb. split; [now f_equal | reflexivity].
    + now exists [].
Qed.

Lemma forallb_rev {A} (f : A -> bool) (l : list A) :
  forallb f (rev l) = forallb f l.
Proof.
  induction l as [|a l IH]; simpl; [reflexivity|].
  rewrite forallb_app, IH. simpl. rewrite andb_true_r. apply andb_comm.
Qed.

(** [s.trim() === ''] exactly when [s] is empty or consists of white space. *)
Lemma trim_nil_iff (s : jsstring) : trim s = [] <-> forallb is_space s = true.
Proof.
  unfold trim, trimEnd. split.
  - intros H.
    assert (H1 : trimStart (rev (trimStart s)) = []).
    { destruct (trimStart (rev (trimStart s))); [reflexivity|].
      apply (f_equal (@List.length N)) in H. rewrite length_rev in H.
      discriminate. }
    apply trimStart_nil_blank in H1. rewrite forallb_rev in H1.
    destruct (trimStart_suffix s) as [p [Hp Hb]].
    rewrite Hp, forallb_app, Hb, H1. reflexivity.
  - intros H. rewrite (trimStart_blank _ H). reflexivity.
Qed.

(** ** Anchored regular expressions *)

Lemma search_Bol_false (r : regex) (s : jsstring) :
  search (Cat Bol r) false s = false.
Proof. induction s as [|c s IH]; simpl; [reflexivity | exact IH]. Qed.

Lemma test_Bol (r : regex) (s : jsstring) :
  test (Cat Bol r) s = match rests r (true, s) with [] => false | _ :: _ => true end.
Proof.
  unfold test.
  assert (E : rests (Cat Bol r) (true, s) = rests r (true, s))
    by (cbn [rests fst flat_map]; apply app_nil_r).
  destruct s as [|c s]; cbn [search]; rewrite E.
  - destruct (rests r _); reflexivity.
  - destruct (rests r _); [apply search_Bol_false | reflexivity].
Qed.

Lemma plus_rests_nil (p : N -> bool) (s : jsstring) :
  In [] (plus_rests p s) <-> s <> [] /\ forallb p s = true.
Proof.
  induction s as [|c s IH]; simpl.
  - split; [contradiction | intros [H _]; now apply H].
  - destruct (p c) eqn:Hc; simpl.
    + rewrite in_app_iff, IH. simpl. split.
      * intros [[_ H] | [H | []]]; split; try discriminate; [exact H|].
        now subst s.
      * intros [_ H]. destruct s as [|d s]; [right; now left|].
        left. split; [discriminate | exact H].
    + split; [contradiction | intros [_ H]; discriminate].
Qed.

Lemma rests_Eol_after (l : list jsstring) :
  flat_map (rests Eol) (map (pair false) l) <> [] <-> In [] l.
Proof.
  induction l as [|x l IH]; simpl.
  - split; [congruence | contradiction].
  - destruct x as [|c x]; simpl.
    + split; [now left | discriminate].
    + rewrite IH. split; [now right | intros [H | H]; [discriminate | exact H]].
Qed.

(** [/^[class]+$/.test(s)]: [s] is not empty and lies in the class. *)
Lemma test_anchored_plus (p : N -> bool) (s : jsstring) :
  test (Cat Bol (Cat (PlusCls p) Eol)) s
  = match s with [] => false | _ :: _ => forallb p s end.
Proof.
  rewrite test_Bol.
  change (rests (Cat (PlusCls p) Eol) (true, s))
    with (flat_map (rests Eol) (map (pair false) (plus_rests p s))).
  pose proof (rests_Eol_after (plus_rests p s)) as H.
  rewrite plus_rests_nil in H.
  destruct (flat_map (rests Eol) (map (pair false) (plus_rests p s))) eqn:E.
  - destruct s as [|c s]; [reflexivity|].
    destruct (forallb p (c :: s)) eqn:F; [|reflexivity].
    exfalso. assert (X : @nil cursor <> []) by (apply H; split; [discriminate | reflexivity]).
    now apply X.
  - assert (X : s <> [] /\ forallb p s = true) by (apply H; discriminate).
    destruct X as [X1 X2]. destruct s; [now elim X1 | now rewrite X2].
Qed.

(** ** The GET handler *)

Section RouteFacts.
Import Route.

Lemma shape_check (slug : value) :
  negb (truthy slug)
  || negb (jsstring_eqb (typeof slug) (js "string"))
  || jsstring_eqb (trim (string_of slug)) []
  = negb (shape_ok slug).
Proof.
  destruct slug as [| |b|n|s|]; try (destruct b); try reflexivity.
  - cbn [truthy typeof negb orb]. destruct (negb (n =? 0)%Z); reflexivity.
  - cbn [shape_ok string_of typeof]. rewrite negb_involutive.
    rewrite jsstring_eqb_refl. cbn [negb]. rewrite orb_false_r.
    destruct (forallb is_space s) eqn:F.
    + apply trim_nil_iff in F. rewrite F. apply orb_true_r.
    + destruct (jsstring_eqb (trim s) []) eqn:E.
      * apply jsstring_eqb_eq, trim_nil_iff in E. congruence.
      * destruct s; [discriminate | reflexivity].
Qed.

(** The handler unfolded along its two validations. *)
Lemma GET_try_unfold (slug : value) :
  GET_try slug =
  if negb (shape_ok slug) then
    ret (error_response "Invalid slug parameter" 400)
  else if negb (test slugPattern (sanitize (string_of slug))) then
    ret (error_response "Slug contains invalid characters" 400)
  else
    bind connectToDatabase (fun _ =>
    bind (findOne (sanitize (string_of slug))) (fun event =>
      match event with
      | None => ret (error_response "Event not found" 404)
      | Some ev => ret (NextResponse_json (SuccessBody ev) 200)
      end)).
Proof. unfold GET_try. rewrite shape_check. reflexivity. Qed.

Lemma GET_shape_invalid (slug : value) (w : World) :
  shape_ok slug = false ->
  GET slug w = ([], Return (error_response "Invalid slug parameter" 400)).
Proof.
  intros H. unfold GET. rewrite GET_try_unfold, H. reflexivity.
Qed.

Lemma GET_charset_invalid (slug : value) (w : World) :
  shape_ok slug = true ->
  test slugPattern (sanitize (string_of slug)) = false ->
  GET slug w
  = ([], Return (error_response "Slug contains invalid characters" 400)).
Proof.
  intros H1 H2. unfold GET. rewrite GET_try_unfold, H1, H2. reflexivity.
Qed.

Lemma connectToDatabase_cases (w : World) :
  connectToDatabase w =
  if negb (env_truthy (MONGODB_URI w)) then
    ([ReadEnv], Throw configuration_error)
  else if global_mongoose_conn w then
    ([ReadEnv; ReadGlobal], Return tt)
  else
    ([ReadEnv; ReadGlobal; ReadEnv; Connect (env_string (MONGODB_URI w))],
     match connect w (env_string (MONGODB_URI w)) with
     | None => Return tt
     | Some e => Throw e
     end).
Proof.
  unfold connectToDatabase, bind, read_env, read_global, await_connect.
  destruct (env_truthy (MONGODB_URI w)); cbn; [|reflexivity].
  destruct (global_mongoose_conn w); cbn; [reflexivity|].
  destruct (connect w _); reflexivity.
Qed.
End RouteFacts.

Section HandlerTheorems.
Import Route.

Example slugPattern_runs :
  map (test slugPattern)
      [js "my-event-2025"; js "hello_world"; js "Hello"; js "a b"; js "-"]
  = [true; false; false; false; true].
Proof. vm_compute. reflexivity. Qed.

(** C6.  A request whose slug parameter is missing, is not a string, or is
    an empty or white-space-only string is answered with status 400 and
    the body [{ error: "Invalid slug parameter" }]. *)
Theorem GET_invalid_slug_parameter (param : value) (w : World) :
  param = VUndefined
  \/ typeof param <> js "string"
  \/ (exists s, param = VString s /\ forallb is_space s = true) ->
  snd (GET param w)
  = Return (NextResponse_json (ErrorBody (js "Invalid slug parameter")) 400).
Proof.
  intros H. rewrite GET_shape_invalid; [reflexivity|].
  destruct H as [-> | [H | [s [-> H]]]]; [reflexivity | |].
  - destruct param; try reflexivity. now elim H.
  - cbn. now rewrite H.
Qed.

Lemma GET_invalid_slug_parameter_witness :
  (VString (js "   ") = VUndefined
   \/ typeof (VString (js "   ")) <> js "string"
   \/ (exists s, VString (js "   ") = VString s /\ forallb is_space s = true))
  /\ snd (GET (VString (js "   ")) (Samples.world None false []))
     = Return (NextResponse_json (ErrorBody (js "Invalid slug parameter")) 400).
Proof.
  assert (H : VString (js "   ") = VUndefined
              \/ typeof (VString (js "   ")) <> js "string"
              \/ (exists s, VString (js "   ") = VString s
                            /\ forallb is_space s = true)).
  { right; right. exists (js "   "). split; reflexivity. }
  split; [exact H|].
  exact (GET_invalid_slug_parameter (VString (js "   "))
           (Samples.world None false []) H).
Defined.

(** A string with a unit outside [a-z0-9-] does not match [slugPattern]. *)
Lemma slugPattern_rejects (s : jsstring) (c : N) :
  In c s -> is_slug_char c = false -> test slugPattern s = false.
Proof.
  intros Hin Hc. unfold slugPattern. rewrite test_anchored_plus.
  destruct s as [|d s]; [reflexivity|].
  destruct (forallb is_slug_char (d :: s)) eqn:F; [|reflexivity].
  rewrite forallb_forall in F. rewrite (F c Hin) in Hc. discriminate.
Qed.

(** C7, as stated, fails on a slug of one space: it is not empty, its
    trimmed form does not match the pattern, and the answer is the one of
    the shape validation. *)
Lemma GET_blank_slug_is_shape_error :
  js " " <> []
  /\ test slugPattern (sanitize (js " ")) = false
  /\ snd (GET (VString (js " ")) (Samples.world None false []))
     = Return (NextResponse_json (ErrorBody (js "Invalid slug parameter")) 400)
  /\ snd (GET (VString (js " ")) (Samples.world None false []))
     <> Return (NextResponse_json
                  (ErrorBody (js "Slug contains invalid characters")) 400).
Proof.
  split; [discriminate|]. split; [reflexivity|].
  split; [reflexivity | discriminate].
Qed.

(** C7 (amended).  For every string slug that is not empty or white space
    only and that, trimmed and lower-cased, does not match
    [^[a-z0-9-]+$] (in particular when it contains an underscore or a
    punctuation mark), GET answers 400 with
    [{ error: "Slug contains invalid characters" }], whatever the
    collection holds. *)
Theorem GET_invalid_characters (s : jsstring) (w : World) :
  forallb is_space s = false ->
  test slugPattern (sanitize s) = false
  \/ (exists c, In c (sanitize s) /\ is_slug_char c = false) ->
  GET (VString s) w
  = ([], Return (NextResponse_json
                   (ErrorBody (js "Slug contains invalid characters")) 400)).
Proof.
  intros Hs H. apply GET_charset_invalid.
  - cbn. now rewrite Hs.
  - destruct H as [H | [c [Hin Hc]]]; [exact H|].
    exact (slugPattern_rejects _ _ Hin Hc).
Qed.

Lemma GET_invalid_characters_witness :
  forallb is_space (js "Hello_World!") = false
  /\ sanitize (js "Hello_World!") = js "hello_world!"
  /\ GET (VString (js "Hello_World!"))
         (Samples.world (Some Samples.uri) true
            [Samples.event "Hello_World!" "hello_world!" "2025-01-15" "09:30"])
     = ([], Return (NextResponse_json
                      (ErrorBody (js "Slug contains invalid characters")) 400)).
Proof.
  split; [reflexivity|]. split; [reflexivity|].
  apply GET_invalid_characters; [reflexivity|].
  left. reflexivity.
Defined.

(** C9.  When the slug fails the shape or the charset validation, the run
    has no effect at all (it reads neither the environment nor the cache
    flag, and makes no call to the backend) and its 400 response is the
    same in any two worlds. *)
Theorem GET_invalid_slug_ignores_world (param : value) (w1 w2 : World) :
  valid_slug param = false ->
  GET param w1 = GET param w2
  /\ fst (GET param w1) = []
  /\ exists message,
       snd (GET param w1)
       = Return (NextResponse_json (ErrorBody message) 400).
Proof.
  unfold valid_slug. intros H.
  destruct (shape_ok param) eqn:Hs.
  - cbn in H. rewrite !(GET_charset_invalid _ _ Hs H).
    split; [reflexivity|]. split; [reflexivity|]. eexists. reflexivity.
  - rewrite !(GET_shape_invalid _ _ Hs).
    split; [reflexivity|]. split; [reflexivity|]. eexists. reflexivity.
Qed.

Lemma GET_invalid_slug_ignores_world_witness :
  valid_slug (VString (js "Hello_World!")) = false
  /\ GET (VString (js "Hello_World!")) (Samples.world None false [])
     = GET (VString (js "Hello_World!"))
           (Samples.world (Some Samples.uri) true [Samples.my_event]).
Proof.
  split; [reflexivity|].
  apply (GET_invalid_slug_ignores_world
           (VString (js "Hello_World!"))
           (Samples.world None false [])
           (Samples.world (Some Samples.uri) true [Samples.my_event])).
  reflexivity.
Defined.
End HandlerTheorems.

Section StorageTheorems.
Import Route.

Lemma GET_connected (param : value) (w : World) :
  valid_slug param = true ->
  snd (connectToDatabase w) = Return tt ->
  query_fault w (sanitize (string_of param)) = None ->
  snd (GET param w)
  = Return
      match find (fun ev => jsstring_eqb (EventModel.slug ev)
                              (sanitize (string_of param)))
                 (collection w) with
      | None => NextResponse_json (ErrorBody (js "Event not found")) 404
      | Some ev => NextResponse_json (SuccessBody ev) 200
      end.
Proof.
  unfold valid_slug. intros Hv Hc Hq.
  apply andb_true_iff in Hv as [H1 H2].
  unfold GET. rewrite GET_try_unfold, H1, H2. cbn [negb].
  unfold bind at 1. destruct (connectToDatabase w) as [tr [[]|e]];
    [|discriminate].
  unfold bind, findOne. rewrite Hq.
  destruct (find _ (collection w)); reflexivity.
Qed.

(** C4.  For a request with a valid slug, once [connectToDatabase] has
    returned and the query is answered: if no document of the collection
    has the sanitized slug, GET answers 404 with
    [{ error: "Event not found" }] (a body without data); if one has, GET
    answers 200 with [{ success: true, data }] where [data] is such a
    document, as plain data. *)
Theorem GET_found_or_not_found (param : value) (w : World) :
  valid_slug param = true ->
  snd (connectToDatabase w) = Return tt ->
  query_fault w (sanitize (string_of param)) = None ->
  ((forall ev, In ev (collection w) ->
               EventModel.slug ev <> sanitize (string_of param)) ->
   snd (GET param w)
   = Return (NextResponse_json (ErrorBody (js "Event not found")) 404))
  /\
  ((exists ev, In ev (collection w)
               /\ EventModel.slug ev = sanitize (string_of param)) ->
   exists ev, In ev (collection w)
              /\ EventModel.slug ev = sanitize (string_of param)
              /\ snd (GET param w)
                 = Return (NextResponse_json (SuccessBody ev) 200)).
Proof.
  intros Hv Hc Hq. rewrite (GET_connected _ _ Hv Hc Hq).
  destruct (find _ (collection w)) as [ev|] eqn:F; split.
  - intros Hn. apply find_some in F as [Hin Heq].
    apply jsstring_eqb_eq in Heq. now elim (Hn ev Hin).
  - intros _. apply find_some in F as [Hin Heq].
    apply jsstring_eqb_eq in Heq. now exists ev.
  - reflexivity.
  - intros [ev [Hin Heq]].
    pose proof (find_none _ _ F ev Hin) as Hf. cbn beta in Hf.
    rewrite Heq, jsstring_eqb_refl in Hf. discriminate.
Qed.

Lemma GET_found_or_not_found_witness :
  (valid_slug (VString (js "my-event-2025")) = true
   /\ snd (connectToDatabase
             (Samples.world (Some Samples.uri) false [Samples.my_event]))
      = Return tt)
  /\ snd (GET (VString (js "my-event-2025"))
              (Samples.world (Some Samples.uri) false [Samples.my_event]))
     = Return (NextResponse_json (SuccessBody Samples.my_event) 200).
Proof.
  split; [split; reflexivity|].
  destruct (GET_found_or_not_found
              (VString (js "my-event-2025"))
              (Samples.world (Some Samples.uri) false [Samples.my_event])
              eq_refl eq_refl eq_refl) as [_ H].
  destruct H as [ev [Hin [Heq Hr]]].
  - exists Samples.my_event. split; [now left | reflexivity].
  - rewrite Hr. destruct Hin as [<- | []]. reflexivity.
Defined.

(** C3, as stated, fails: with the cache flag set and the environment
    variable unset, [connectToDatabase] still reads the variable and
    throws, and a valid request is answered with the configuration error.
    In a process: a first request connects and succeeds, a connection is
    cached, the variable is deleted, and the next request gets the
    configuration error. *)
Lemma cached_connection_still_checks_configuration :
  let w := Samples.world None true [Samples.my_event] in
  global_mongoose_conn w = true
  /\ connectToDatabase w = ([ReadEnv], Throw configuration_error)
  /\ snd (GET (VString (js "my-event-2025")) w)
     = Return (NextResponse_json
                 (ErrorBody (js "Database configuration error")) 500)
  /\ run (Samples.world (Some Samples.uri) false [Samples.my_event])
         [Request (VString (js "my-event-2025"));
          SetConn true;
          SetEnv None;
          Request (VString (js "my-event-2025"))]
     = [NextResponse_json (SuccessBody Samples.my_event) 200;
        NextResponse_json (ErrorBody (js "Database configuration error")) 500].
Proof.
  cbv zeta. split; [reflexivity|]. split; [reflexivity|].
  split; reflexivity.
Qed.

(** C3 (amended).  The configuration check runs on every call of
    [connectToDatabase], before the cached "already connected" state is
    looked at: whenever [MONGODB_URI] is unset or empty the call throws
    without reading the cache flag, and a request with a valid slug is
    answered 500 "Database configuration error", cached connection or
    not.  The cached state only saves the call of [connect]: with the
    variable set and the flag set, the call returns without connecting. *)
Theorem configuration_checked_on_every_call (w : World) :
  (env_truthy (MONGODB_URI w) = false ->
   connectToDatabase w = ([ReadEnv], Throw configuration_error)
   /\ forall param, valid_slug param = true ->
        GET param w
        = ([ReadEnv; ConsoleError configuration_error],
           Return (NextResponse_json
                     (ErrorBody (js "Database configuration error")) 500)))
  /\
  (env_truthy (MONGODB_URI w) = true ->
   global_mongoose_conn w = true ->
   connectToDatabase w = ([ReadEnv; ReadGlobal], Return tt)).
Proof.
  rewrite connectToDatabase_cases. split.
  - intros H. rewrite H. split; [reflexivity|].
    intros param Hv. unfold valid_slug in Hv.
    apply andb_true_iff in Hv as [H1 H2].
    unfold GET. rewrite GET_try_unfold, H1, H2. cbn [negb].
    unfold bind at 1. rewrite connectToDatabase_cases, H. reflexivity.
  - intros H1 H2. rewrite H1, H2. reflexivity.
Qed.

Lemma configuration_checked_on_every_call_witness :
  env_truthy (MONGODB_URI (Samples.world (Some []) true [])) = false
  /\ connectToDatabase (Samples.world (Some []) true [])
     = ([ReadEnv], Throw configuration_error).
Proof.
  split; [reflexivity|].
  apply (proj1 (configuration_checked_on_every_call
                  (Samples.world (Some []) true []))).
  reflexivity.
Defined.

(** C8, as stated, fails on errors whose message mentions MONGODB_URI.  A
    cast error with such a message is answered 500 "Database configuration
    error", not 400 "Invalid request parameters"; and a connection failure
    with such a message, which is neither a missing configuration nor a
    validation error, is answered "Database configuration error", not
    "Internal server error". *)
Lemma errors_mentioning_MONGODB_URI :
  let e := ErrorObject (js "CastError")
                       (js "Cast to string failed for MONGODB_URI") in
  let e' := ErrorObject (js "MongoNetworkError")
                        (js "failed to connect to the server in MONGODB_URI") in
  cast_or_validation e = true
  /\ snd (GET (VString (js "my-event-2025")) (Samples.faulty_world e))
     = Return (NextResponse_json
                 (ErrorBody (js "Database configuration error")) 500)
  /\ snd (GET (VString (js "my-event-2025")) (Samples.faulty_world e))
     <> Return (NextResponse_json
                  (ErrorBody (js "Invalid request parameters")) 400)
  /\ MONGODB_URI (Samples.unreachable_world e') = Some Samples.uri
  /\ e' <> configuration_error
  /\ cast_or_validation e' = false
  /\ snd (GET (VString (js "my-event-2025")) (Samples.unreachable_world e'))
     = Return (NextResponse_json
                 (ErrorBody (js "Database configuration error")) 500)
  /\ snd (GET (VString (js "my-event-2025")) (Samples.unreachable_world e'))
     <> Return (NextResponse_json
                  (ErrorBody (js "Internal server error")) 500).
Proof.
  cbv zeta. split; [reflexivity|]. split; [reflexivity|].
  split; [discriminate|]. split; [reflexivity|]. split; [discriminate|].
  split; [reflexivity|]. split; [reflexivity | discriminate].
Qed.

(** C8 (amended).  No run of GET ends in an error: whatever the [try]
    block throws is logged once and turned into one JSON error response.
    An [Error] whose message contains "MONGODB_URI" (the missing
    configuration error is one) gives 500 "Database configuration error",
    whatever its name; otherwise an [Error] named CastError or
    ValidationError gives 400 "Invalid request parameters"; everything
    else gives 500 "Internal server error". *)
Theorem GET_catches_everything (param : value) (w : World) :
  (exists r, snd (GET param w) = Return r)
  /\ mentions_MONGODB_URI configuration_error = true
  /\ forall e, snd (GET_try param w) = Throw e ->
       GET param w
       = (fst (GET_try param w) ++ [ConsoleError e],
          Return
            (if mentions_MONGODB_URI e then
               NextResponse_json
                 (ErrorBody (js "Database configuration error")) 500
             else if cast_or_validation e then
               NextResponse_json
                 (ErrorBody (js "Invalid request parameters")) 400
             else
               NextResponse_json
                 (ErrorBody (js "Internal server error")) 500)).
Proof.
  split; [|split; [reflexivity|]].
  - unfold GET. destruct (GET_try param w) as [tr [r|e]]; eexists; reflexivity.
  - intros e He. unfold GET. destruct (GET_try param w) as [tr [r|e']];
      [discriminate|]. cbn in He. injection He as ->. cbn [fst].
    destruct e as [n m|]; [|reflexivity].
    cbn [GET_catch mentions_MONGODB_URI cast_or_validation].
    destruct (includes (js "MONGODB_URI") m); reflexivity.
Qed.

Lemma GET_catches_everything_witness :
  snd (GET_try (VString (js "my-event-2025"))
         (Samples.faulty_world
            (ErrorObject (js "CastError") (js "Cast to string failed"))))
  = Throw (ErrorObject (js "CastError") (js "Cast to string failed"))
  /\ snd (GET (VString (js "my-event-2025"))
            (Samples.faulty_world
               (ErrorObject (js "CastError") (js "Cast to string failed"))))
     = Return (NextResponse_json
                 (ErrorBody (js "Invalid request parameters")) 400).
Proof.
  split; [reflexivity|].
  rewrite (proj2 (proj2 (GET_catches_everything
                           (VString (js "my-event-2025"))
                           (Samples.faulty_world
                              (ErrorObject (js "CastError")
                                           (js "Cast to string failed")))))
             (ErrorObject (js "CastError") (js "Cast to string failed"))
             eq_refl).
  reflexivity.
Defined.
End StorageTheorems.

(** ** The pre-save hook *)

Section HookFacts.
Import EventModel.
Variable host : jsstring -> option Z.
Variable isModified : string -> bool.

(** The hook in closed form: the document it leaves and how it ends. *)
Lemma pre_save_unfold (this : IEvent) :
  pre_save host isModified this =
  if date_rejected host isModified this then
    (after_title isModified this, Throw date_error)
  else
    let this' :=
      if isModified "date" then
        match JsDate.new_Date host (date this) with
        | Some t => set_date (normalized_date t) (after_title isModified this)
        | None => after_title isModified this
        end
      else after_title isModified this in
    (this', if time_rejected isModified this
            then Throw time_error else Return tt).
Proof.
  unfold pre_save, date_rejected, time_rejected, after_title, when, bind,
    this_, assign, ret, next_error, normalized_date.
  destruct (isModified "title"), (isModified "date"), (isModified "time");
    cbn [date time set_slug set_date andb negb]; try reflexivity;
    try (destruct (JsDate.new_Date host (date this));
         cbn [date time set_slug set_date andb negb]); try reflexivity;
    destruct (test timeRegex (time this)); reflexivity.
Qed.

Lemma pre_save_time (this : IEvent) :
  time (fst (pre_save host isModified this)) = time this.
Proof.
  rewrite pre_save_unfold. unfold after_title.
  destruct (date_rejected host isModified this), (isModified "title"),
    (isModified "date"); cbn [fst]; try reflexivity;
    destruct (JsDate.new_Date host (date this)); reflexivity.
Qed.

Lemma pre_save_result (this : IEvent) :
  snd (pre_save host isModified this) =
  if date_rejected host isModified this then Throw date_error
  else if time_rejected isModified this then Throw time_error
  else Return tt.
Proof.
  rewrite pre_save_unfold.
  destruct (date_rejected host isModified this); reflexivity.
Qed.

Lemma save_rejected (write : list IEvent -> IEvent -> list IEvent * result unit)
      (docs : list IEvent) (this : IEvent) (e : thrown) :
  snd (pre_save host isModified this) = Throw e ->
  save host isModified write docs this = (docs, Throw e).
Proof.
  unfold save. destruct (pre_save host isModified this) as [d [[]|e']]; cbn;
    congruence.
Qed.
Lemma save_accepted (write : list IEvent -> IEvent -> list IEvent * result unit)
      (docs : list IEvent) (this : IEvent) :
  snd (pre_save host isModified this) = Return tt ->
  save host isModified write docs this
  = write docs (fst (pre_save host isModified this)).
Proof.
  unfold save. destruct (pre_save host isModified this) as [d [[]|e']]; cbn;
    [reflexivity | discriminate].
Qed.
End HookFacts.

Ltac case_bool :=
  match goal with
  | |- context [if ?b then _ else _] =>
      match type of b with bool => destruct b eqn:? end
  | |- context [andb ?b _] => destruct b eqn:?
  | |- context [orb ?b _] => destruct b eqn:?
  end.

(** [timeRegex] accepts exactly the strings [H:MM] and [HH:MM] of a 24-hour
    clock. *)
Lemma timeRegex_is_HH_MM (s : jsstring) :
  test EventModel.timeRegex s = EventModel.is_HH_MM s.
Proof.
  unfold EventModel.timeRegex, chr, rng. rewrite test_Bol.
  destruct s as [|a [|b [|c [|d [|e [|f s]]]]]]; cbn -[N.eqb in_range].
  all: repeat (case_bool; cbn -[N.eqb in_range]); try reflexivity; congruence.
Qed.

Example timeRegex_accepts :
  map (test EventModel.timeRegex) [js "9:30"; js "09:30"; js "23:59"; js "0:00"]
  = [true; true; true; true].
Proof. vm_compute. reflexivity. Qed.

Example timeRegex_refuses :
  map (test EventModel.timeRegex)
      [js "24:00"; js "12:60"; js "9:5"; js " 9:30"; js "09:30:00"; js "noon"]
  = [false; false; false; false; false; false].
Proof. vm_compute. reflexivity. Qed.

Section TimeTheorems.
Import EventModel.

(** C5, as stated, fails when the date is modified too and does not
    parse: the hook has aborted with the date error before it looks at the
    time. *)
Lemma bad_time_behind_bad_date :
  let this := Samples.event "My Event" "my-event" "soon" "25:00" in
  let isModified := Samples.modified ["date"; "time"]%string in
  isModified "time"%string = true
  /\ test timeRegex (time this) = false
  /\ snd (pre_save Samples.no_host isModified this) = Throw date_error
  /\ snd (pre_save Samples.no_host isModified this) <> Throw time_error.
Proof.
  cbv zeta. split; [reflexivity|]. split; [reflexivity|].
  split; [reflexivity | discriminate].
Qed.

(** C5 (amended).  For every modified time field the hook leaves the
    string as it is.  If the string matches
    [^([0-1]?[0-9]|2[0-3]):[0-5][0-9]$] (it is [H:MM] or [HH:MM] on a
    24-hour clock), the hook ends without error unless the date check has
    failed.  For every other string the hook aborts the write, nothing is
    written, and the error is "Time must be in HH:MM format" unless the
    date is modified too and does not parse, in which case the earlier
    date check has aborted the write with "Invalid date format". *)
Theorem time_validated_not_rewritten
        (host : jsstring -> option Z) (isModified : string -> bool)
        (write : list IEvent -> IEvent -> list IEvent * result unit)
        (docs : list IEvent) (this : IEvent) :
  isModified "time"%string = true ->
  time (fst (pre_save host isModified this)) = time this
  /\ test timeRegex (time this) = is_HH_MM (time this)
  /\ (test timeRegex (time this) = true ->
      date_rejected host isModified this = false ->
      snd (pre_save host isModified this) = Return tt
      /\ save host isModified write docs this
         = write docs (fst (pre_save host isModified this)))
  /\ (test timeRegex (time this) = false ->
      let e := if date_rejected host isModified this
               then date_error else time_error in
      snd (pre_save host isModified this) = Throw e
      /\ save host isModified write docs this = (docs, Throw e)).
Proof.
  intros Hm. split; [apply pre_save_time|].
  split; [apply timeRegex_is_HH_MM|].
  assert (R := pre_save_result host isModified this).
  unfold time_rejected in R. rewrite Hm in R. split.
  - intros Ht Hd.
    assert (E : snd (pre_save host isModified this) = Return tt)
      by (rewrite R, Hd, Ht; reflexivity).
    split; [exact E | now apply save_accepted].
  - intros Ht. cbv zeta.
    assert (E : snd (pre_save host isModified this)
                = Throw (if date_rejected host isModified this
                         then date_error else time_error)).
    { rewrite R, Ht. destruct (date_rejected host isModified this);
        reflexivity. }
    split; [exact E|]. now apply save_rejected.
Qed.

Lemma time_validated_not_rewritten_witness :
  Samples.modified ["time"]%string "time"%string = true
  /\ snd (pre_save Samples.no_host (Samples.modified ["time"]%string)
            (Samples.event "My Event" "my-event" "2025-01-15" "9:30"))
     = Return tt.
Proof.
  split; [reflexivity|].
  apply (time_validated_not_rewritten
           Samples.no_host (Samples.modified ["time"]%string)
           (fun docs d => (d :: docs, Return tt)) []
           (Samples.event "My Event" "my-event" "2025-01-15" "9:30")
           eq_refl); reflexivity.
Defined.
End TimeTheorems.

(** ** The four replacements of the slug derivation

    Each [replace] call of the hook, run by the matcher above, computes the
    function written out in Part I. *)

Lemma plus_rests_head (p : N -> bool) (c : N) (t : jsstring) :
  p c = true -> exists l, plus_rests p (c :: t) = drop_while p t :: l.
Proof.
  revert c. induction t as [|d t IH]; intros c Hc; simpl; rewrite Hc.
  - now exists [].
  - destruct (p d) eqn:Hd.
    + destruct (IH d Hd) as [l Hl]. simpl in Hl. rewrite Hd in Hl.
      rewrite Hl. simpl. eexists. reflexivity.
    + simpl. now exists [].
Qed.

Lemma plus_rests_none (p : N -> bool) (c : N) (t : jsstring) :
  p c = false -> plus_rests p (c :: t) = [].
Proof. intros H. simpl. now rewrite H. Qed.

Lemma drop_while_length (p : N -> bool) (s : jsstring) :
  (List.length (drop_while p s) <= List.length s)%nat.
Proof.
  induction s as [|c s IH]; simpl; [lia|]. destruct (p c); simpl; lia.
Qed.

Lemma squeeze_in_run (p : N -> bool) (rep s : jsstring) :
  squeeze p rep true s = squeeze p rep false (drop_while p s).
Proof.
  induction s as [|c s IH]; simpl; [reflexivity|].
  destruct (p c) eqn:Hc; [exact IH|]. simpl. now rewrite Hc.
Qed.

Lemma plus_rests_shorter (p : N -> bool) (s x : jsstring) :
  In x (plus_rests p s) -> (List.length x < List.length s)%nat.
Proof.
  induction s as [|c s IH]; simpl; [contradiction|].
  destruct (p c); [|contradiction].
  rewrite in_app_iff. intros [H | [<- | []]]; [apply IH in H|]; lia.
Qed.

(** A match never ends before the cursor it began at. *)
Lemma rests_not_longer (r : regex) :
  forall (k k' : cursor),
    In k' (rests r k) -> (List.length (snd k') <= List.length (snd k))%nat.
Proof.
  induction r as [p| | |r1 IH1 r2 IH2|r1 IH1 r2 IH2|r1 IH1|p];
    intros [b s] [b' s']; cbn [rests fst snd].
  - destruct s as [|c t]; [contradiction|].
    destruct (p c); [|contradiction]. intros [[= _ <-] | []]. simpl. lia.
  - destruct b; [|contradiction]. intros [[= _ <-] | []]. lia.
  - destruct s; [|contradiction]. intros [[= _ <-] | []]. lia.
  - rewrite in_flat_map. intros [k1 [H1 H2]].
    apply IH1 in H1. apply IH2 in H2. cbn [snd] in *. lia.
  - rewrite in_app_iff. intros [H | H]; [apply IH1 in H | apply IH2 in H];
      exact H.
  - rewrite in_app_iff. intros [H | [[= _ <-] | []]]; [|lia].
    apply IH1 in H. exact H.
  - rewrite in_map_iff. intros [x [[= _ <-] H]].
    apply plus_rests_shorter in H. lia.
Qed.

(** [replace] never runs out of fuel: any two amounts above the length of
    the string give the same result. *)
Lemma replace_from_fuel (r : regex) (rep : jsstring) (f1 : nat) :
  forall (f2 : nat) (bol : bool) (s : jsstring),
    (List.length s < f1)%nat -> (List.length s < f2)%nat ->
    replace_from f1 r rep bol s = replace_from f2 r rep bol s.
Proof.
  induction f1 as [|f1 IH]; intros f2 bol s L1 L2; [lia|].
  destruct f2 as [|f2]; [lia|]. cbn [replace_from].
  destruct (rests r (bol, s)) as [|[b' s'] l] eqn:E.
  - destruct s as [|c t]; [reflexivity|]. simpl in L1, L2.
    f_equal. apply IH; lia.
  - destruct (List.length s' <? List.length s)%nat eqn:Lt.
    + apply Nat.ltb_lt in Lt. f_equal. apply IH; lia.
    + destruct s as [|c t]; [reflexivity|]. simpl in L1, L2.
      do 2 f_equal. apply IH; lia.
Qed.

Lemma replace_from_step_match (fuel : nat) (r : regex) (rep : jsstring)
      (bol : bool) (s s' : jsstring) (b : bool) (l : list cursor) :
  rests r (bol, s) = (b, s') :: l ->
  (List.length s' < List.length s)%nat ->
  replace_from (S fuel) r rep bol s = rep ++ replace_from fuel r rep false s'.
Proof.
  intros H L. cbn [replace_from]. rewrite H.
  apply Nat.ltb_lt in L. now rewrite L.
Qed.

Lemma replace_from_step_skip (fuel : nat) (r : regex) (rep : jsstring)
      (bol : bool) (c : N) (t : jsstring) :
  rests r (bol, c :: t) = [] ->
  replace_from (S fuel) r rep bol (c :: t) = c :: replace_from fuel r rep false t.
Proof. intros H. cbn [replace_from]. now rewrite H. Qed.

Lemma replace_from_spaces (p : N -> bool) (rep : jsstring) (fuel : nat) :
  forall (bol : bool) (s : jsstring),
    (List.length s < fuel)%nat ->
    replace_from fuel (PlusCls p) rep bol s = squeeze p rep false s.
Proof.
  induction fuel as [|fuel IH]; intros bol s L; [lia|].
  destruct s as [|c t]; [reflexivity|].
  destruct (p c) eqn:Hc.
  - destruct (plus_rests_head p c t Hc) as [l Hl].
    pose proof (drop_while_length p t) as D. simpl in L.
    rewrite (@replace_from_step_match fuel (PlusCls p) rep bol (c :: t)
               (drop_while p t) false (map (pair false) l)).
    + rewrite IH by lia. simpl. rewrite Hc. now rewrite squeeze_in_run.
    + cbn [rests snd]. rewrite Hl. reflexivity.
    + simpl. lia.
  - rewrite replace_from_step_skip.
    + simpl in L. rewrite IH by lia. simpl. now rewrite Hc.
    + cbn [rests snd]. now rewrite plus_rests_none.
Qed.

Lemma replace_from_special (p : N -> bool) (fuel : nat) :
  forall (bol : bool) (s : jsstring),
    (List.length s < fuel)%nat ->
    replace_from fuel (Cls (fun c => negb (p c))) [] bol s = filter p s.
Proof.
  induction fuel as [|fuel IH]; intros bol s L; [lia|].
  destruct s as [|c t]; [reflexivity|]. simpl in L.
  destruct (p c) eqn:Hc.
  - rewrite replace_from_step_skip.
    + rewrite IH by lia. simpl. now rewrite Hc.
    + cbn [rests snd]. now rewrite Hc.
  - rewrite (@replace_from_step_match fuel _ [] bol (c :: t) t false []).
    + rewrite IH by lia. simpl. now rewrite Hc.
    + cbn [rests snd]. now rewrite Hc.
    + simpl. lia.
Qed.

Lemma is_hyphen_eq (c : N) : is_hyphen c = true -> c = hyphen.
Proof. unfold is_hyphen. apply N.eqb_eq. Qed.

Lemma replace_from_hyphens (fuel : nat) :
  forall (bol : bool) (s : jsstring),
    (List.length s < fuel)%nat ->
    replace_from fuel re_hyphens [hyphen] bol s
    = squeeze is_hyphen [hyphen] false s.
Proof.
  unfold re_hyphens.
  induction fuel as [|fuel IH]; intros bol s L; [lia|].
  destruct s as [|c t]; [reflexivity|]. simpl in L.
  destruct (is_hyphen c) eqn:Hc.
  - destruct t as [|d t'].
    + rewrite replace_from_step_skip.
      * rewrite IH by (simpl; lia). simpl. rewrite Hc.
        now rewrite (is_hyphen_eq _ Hc).
      * cbn [rests snd flat_map]. rewrite Hc. reflexivity.
    + destruct (is_hyphen d) eqn:Hd.
      * destruct (plus_rests_head is_hyphen d t' Hd) as [l Hl].
        pose proof (drop_while_length is_hyphen t') as D. simpl in L.
        rewrite (@replace_from_step_match fuel _ [hyphen] bol (c :: d :: t')
                   (drop_while is_hyphen t') false (map (pair false) l)).
        -- rewrite IH by lia. simpl. rewrite Hc, Hd.
           now rewrite squeeze_in_run.
        -- cbn [rests snd flat_map]. rewrite Hc. cbn [flat_map rests snd].
           rewrite Hl, app_nil_r. reflexivity.
        -- simpl. lia.
      * rewrite replace_from_step_skip.
        -- rewrite IH by (simpl in *; lia). simpl. rewrite Hc, Hd.
           now rewrite (is_hyphen_eq _ Hc).
        -- cbn [rests snd flat_map]. rewrite Hc. cbn [flat_map rests snd].
           now rewrite plus_rests_none.
  - rewrite replace_from_step_skip.
    + rewrite IH by lia. simpl. now rewrite Hc.
    + cbn [rests snd flat_map]. rewrite Hc. reflexivity.
Qed.

Lemma strip_end_nil (p : N -> bool) (s : jsstring) :
  forallb p s = true -> strip_end p s = [].
Proof. destruct s as [|c t]; [reflexivity|]. intros H. cbn [strip_end]. now rewrite H. Qed.

Lemma rests_at_end (p : N -> bool) (bol : bool) (s : jsstring) :
  flat_map (rests Eol) (map (pair false) (plus_rests p s))
  = if forallb p s then match s with [] => [] | _ :: _ => [(false, [])] end else [].
Proof.
  induction s as [|c t IH]; [reflexivity|].
  cbn [plus_rests forallb]. destruct (p c) eqn:Hc; [|reflexivity].
  rewrite map_app, flat_map_app, IH. cbn [andb].
  destruct (forallb p t) eqn:Ht.
  - destruct t as [|d t']; [reflexivity|]. reflexivity.
  - destruct t as [|d t']; [discriminate|]. reflexivity.
Qed.

Lemma replace_from_edges_inside (fuel : nat) :
  forall (s : jsstring),
    (List.length s < fuel)%nat ->
    replace_from fuel re_edge_hyphens [] false s = strip_end is_hyphen s.
Proof.
  unfold re_edge_hyphens.
  induction fuel as [|fuel IH]; intros s L; [lia|].
  destruct s as [|c t]; [reflexivity|]. simpl in L.
  assert (R : rests (Alt (Cat Bol (PlusCls is_hyphen)) (Cat (PlusCls is_hyphen) Eol))
                    (false, c :: t)
              = if forallb is_hyphen (c :: t) then [(false, [])] else []).
  { cbn [rests fst snd flat_map app].
    change (flat_map _ (map (pair false) (plus_rests is_hyphen (c :: t))))
      with (flat_map (rests Eol) (map (pair false) (plus_rests is_hyphen (c :: t)))).
    now rewrite (rests_at_end is_hyphen false). }
  destruct (forallb is_hyphen (c :: t)) eqn:F.
  - rewrite (@replace_from_step_match fuel _ [] false (c :: t) [] false []).
    + rewrite strip_end_nil by exact F. destruct fuel; reflexivity.
    + exact R.
    + simpl. lia.
  - rewrite replace_from_step_skip by exact R.
    rewrite IH by lia. cbn [strip_end]. now rewrite F.
Qed.

Lemma replace_from_edges (fuel : nat) (s : jsstring) :
  (List.length s < fuel)%nat ->
  replace_from fuel re_edge_hyphens [] true s
  = strip_end is_hyphen (drop_while is_hyphen s).
Proof.
  unfold re_edge_hyphens. intros L.
  destruct fuel as [|fuel]; [lia|].
  destruct s as [|c t]; [reflexivity|]. simpl in L.
  destruct (is_hyphen c) eqn:Hc.
  - destruct (plus_rests_head is_hyphen c t Hc) as [l Hl].
    pose proof (drop_while_length is_hyphen t) as D.
    rewrite (@replace_from_step_match fuel _ [] true (c :: t)
               (drop_while is_hyphen t) false
               (map (pair false) l ++
                flat_map (rests Eol) (map (pair false) (plus_rests is_hyphen (c :: t))))).
    + fold re_edge_hyphens. rewrite replace_from_edges_inside by lia.
      cbn [drop_while]. rewrite Hc. reflexivity.
    + cbn [rests fst snd flat_map]. rewrite app_nil_r, Hl. reflexivity.
    + simpl. lia.
  - rewrite replace_from_step_skip.
    + fold re_edge_hyphens. rewrite replace_from_edges_inside by lia.
      cbn [drop_while]. rewrite Hc. cbn [strip_end forallb]. rewrite Hc.
      reflexivity.
    + cbn [rests fst snd flat_map]. rewrite plus_rests_none by exact Hc.
      reflexivity.
Qed.

Theorem slug_of_title_written_out (title : jsstring) :
  slug_of_title title = slug_written_out title.
Proof.
  unfold slug_of_title, slug_written_out, replace, re_special, re_spaces.
  rewrite (replace_from_special is_word_space_hyphen) by lia.
  rewrite replace_from_spaces by lia.
  rewrite replace_from_hyphens by lia.
  rewrite replace_from_edges by lia.
  reflexivity.
Qed.

(** ** Properties of the derived slug *)

Ltac classes :=
  unfold is_slug_char_or_underscore, is_slug_char, is_word_space_hyphen,
    is_word, is_space, is_lower, is_upper, is_digit, is_hyphen, hyphen,
    in_range in *;
  repeat rewrite ?andb_true_iff, ?orb_true_iff, ?andb_false_iff,
    ?orb_false_iff, ?N.leb_le, ?N.leb_gt, ?N.eqb_eq, ?N.eqb_neq in *;
  lia.

Lemma lower_unit_not_upper (c d : N) :
  In d (lower_unit c) -> is_upper d = false.
Proof.
  unfold lower_unit. destruct (is_upper c) eqn:U.
  - intros [<- | []]. classes.
  - destruct (N.eqb c 304); [intros [<- | [<- | []]]; reflexivity|].
    destruct (N.eqb c 8490); [intros [<- | []]; reflexivity|].
    intros [<- | []]. exact U.
Qed.

Lemma toLowerCase_not_upper (s : jsstring) (c : N) :
  In c (toLowerCase s) -> is_upper c = false.
Proof.
  unfold toLowerCase. rewrite in_flat_map. intros [x [_ H]].
  exact (lower_unit_not_upper _ _ H).
Qed.

Lemma drop_while_In (p : N -> bool) (s : jsstring) (c : N) :
  In c (drop_while p s) -> In c s.
Proof.
  induction s as [|d s IH]; simpl; [tauto|].
  destruct (p d); simpl; [intros H; right; now apply IH | tauto].
Qed.

Lemma trimStart_drop_while (s : jsstring) : trimStart s = drop_while is_space s.
Proof. induction s as [|c s IH]; simpl; [|rewrite IH]; reflexivity. Qed.

Lemma trim_In (s : jsstring) (c : N) : In c (trim s) -> In c s.
Proof.
  unfold trim, trimEnd. rewrite !trimStart_drop_while. intros H.
  apply in_rev, drop_while_In, in_rev in H. now apply drop_while_In in H.
Qed.

Lemma squeeze_In (p : N -> bool) (rep : jsstring) (b : bool) (s : jsstring)
      (c : N) :
  In c (squeeze p rep b s) -> In c rep \/ (In c s /\ p c = false).
Proof.
  revert b. induction s as [|d s IH]; intros b; simpl; [tauto|].
  destruct (p d) eqn:Hd.
  - assert (X : In c (squeeze p rep true s) ->
                In c rep \/ (In c (d :: s) /\ p c = false)).
    { intros H. apply IH in H. simpl. tauto. }
    destruct b; [exact X|]. rewrite in_app_iff. intros [H | H]; [now left|].
    now apply X.
  - simpl. intros [<- | H]; [right; tauto|].
    apply IH in H. destruct H as [H | [H1 H2]]; [now left | right; tauto].
Qed.

Lemma strip_end_In (p : N -> bool) (s : jsstring) (c : N) :
  In c (strip_end p s) -> In c s.
Proof.
  induction s as [|d s IH]; [tauto|]. cbn [strip_end].
  destruct (forallb p (d :: s)); [contradiction|].
  simpl. intros [H | H]; [now left | right; now apply IH].
Qed.

Lemma slug_written_out_alphabet (title : jsstring) (c : N) :
  In c (slug_written_out title) -> is_slug_char_or_underscore c = true.
Proof.
  unfold slug_written_out. intros H.
  apply strip_end_In, drop_while_In, squeeze_In in H.
  destruct H as [[<- | []] | [H Hh]]; [reflexivity|].
  apply squeeze_In in H. destruct H as [[<- | []] | [H Hs]]; [reflexivity|].
  apply filter_In in H. destruct H as [H Hk].
  apply trim_In, toLowerCase_not_upper in H.
  clear - Hh Hs Hk H. classes.
Qed.

Lemma squeeze_hyphens_no_double (s : jsstring) :
  starts_with_hyphen (squeeze is_hyphen [hyphen] true s) = false
  /\ has_double_hyphen (squeeze is_hyphen [hyphen] true s) = false
  /\ has_double_hyphen (squeeze is_hyphen [hyphen] false s) = false.
Proof.
  induction s as [|c s [IH1 [IH2 IH3]]]; [now cbn|].
  cbn [squeeze]. destruct (is_hyphen c) eqn:Hc.
  - split; [exact IH1|]. split; [exact IH2|].
    cbn [app has_double_hyphen]. now rewrite IH1, IH2, andb_false_r.
  - cbn [starts_with_hyphen has_double_hyphen]. now rewrite Hc, IH3.
Qed.

Lemma has_double_hyphen_tail (c : N) (s : jsstring) :
  has_double_hyphen (c :: s) = false -> has_double_hyphen s = false.
Proof. cbn [has_double_hyphen]. now intros H%orb_false_iff. Qed.

Lemma drop_while_no_double (p : N -> bool) (s : jsstring) :
  has_double_hyphen s = false -> has_double_hyphen (drop_while p s) = false.
Proof.
  induction s as [|c s IH]; [reflexivity|]. intros H. cbn [drop_while].
  destruct (p c); [|exact H]. apply IH. exact (has_double_hyphen_tail _ _ H).
Qed.

Lemma strip_end_starts (p : N -> bool) (s : jsstring) :
  starts_with_hyphen s = false ->
  starts_with_hyphen (strip_end p s) = false.
Proof.
  destruct s as [|c s]; [reflexivity|]. cbn [strip_end].
  destruct (forallb p (c :: s)); [reflexivity | trivial].
Qed.

Lemma strip_end_no_double (p : N -> bool) (s : jsstring) :
  has_double_hyphen s = false -> has_double_hyphen (strip_end p s) = false.
Proof.
  induction s as [|c s IH]; [reflexivity|]. intros H. cbn [strip_end].
  destruct (forallb p (c :: s)); [reflexivity|].
  cbn [has_double_hyphen] in *. apply orb_false_iff in H as [H1 H2].
  rewrite (IH H2), orb_false_r.
  apply andb_false_iff in H1 as [H1 | H1]; [now rewrite H1|].
  now rewrite (strip_end_starts p s H1), andb_false_r.
Qed.

Lemma drop_while_starts (s : jsstring) :
  starts_with_hyphen (drop_while is_hyphen s) = false.
Proof.
  induction s as [|c s IH]; [reflexivity|]. cbn [drop_while].
  destruct (is_hyphen c) eqn:Hc; [exact IH | exact Hc].
Qed.

Lemma strip_end_nil_inv (p : N -> bool) (s : jsstring) :
  strip_end p s = [] -> forallb p s = true.
Proof.
  destruct s as [|c s]; [reflexivity|]. cbn [strip_end].
  destruct (forallb p (c :: s)); [reflexivity | discriminate].
Qed.

Lemma starts_with_hyphen_app (l : jsstring) (c : N) :
  l <> [] -> starts_with_hyphen (l ++ [c]) = starts_with_hyphen l.
Proof. destruct l; [congruence | reflexivity]. Qed.

Lemma strip_end_ends (s : jsstring) :
  ends_with_hyphen (strip_end is_hyphen s) = false.
Proof.
  unfold ends_with_hyphen.
  induction s as [|c s IH]; [reflexivity|]. cbn [strip_end].
  destruct (forallb is_hyphen (c :: s)) eqn:F; [reflexivity|].
  cbn [rev]. destruct (strip_end is_hyphen s) as [|d l] eqn:E.
  - apply strip_end_nil_inv in E. cbn [forallb] in F. rewrite E in F.
    cbn. now rewrite andb_true_r in F.
  - rewrite starts_with_hyphen_app; [exact IH|].
    intros X. apply (f_equal (@List.length N)) in X.
    rewrite length_rev in X. discriminate.
Qed.

Lemma trimStart_id (s : jsstring) :
  (forall c, In c s -> is_space c = false) -> trimStart s = s.
Proof.
  destruct s as [|c s]; [reflexivity|]. intros H. simpl.
  now rewrite (H c (or_introl eq_refl)).
Qed.

(** The two setters of the [slug] path leave a string over the slug
    alphabet as it is. *)
Lemma slug_setters_id (s : jsstring) :
  (forall c, In c s -> is_slug_char_or_underscore c = true) ->
  trim (toLowerCase s) = s.
Proof.
  intros H.
  assert (L : toLowerCase s = s).
  { unfold toLowerCase. induction s as [|c s IH]; [reflexivity|].
    cbn [flat_map]. rewrite IH by (intros d Hd; apply H; now right).
    pose proof (H c (or_introl eq_refl)) as Hc.
    assert (U : is_upper c = false) by (clear - Hc; classes).
    assert (U1 : N.eqb c 304 = false) by (clear - Hc; apply N.eqb_neq; classes).
    assert (U2 : N.eqb c 8490 = false) by (clear - Hc; apply N.eqb_neq; classes).
    unfold lower_unit. now rewrite U, U1, U2. }
  rewrite L. unfold trim, trimEnd.
  assert (S : forall c, In c s -> is_space c = false).
  { intros c Hc. apply H in Hc. clear - Hc. classes. }
  rewrite (trimStart_id s S), trimStart_id, rev_involutive; [reflexivity|].
  intros c Hc. apply S. now apply in_rev.
Qed.

(** Every slug the hook derives is over the alphabet [a-z0-9_-], has no
    hyphen at either end and no two hyphens in a row. *)
Lemma slug_of_title_well_formed (title : jsstring) :
  forallb is_slug_char_or_underscore (slug_of_title title) = true
  /\ starts_with_hyphen (slug_of_title title) = false
  /\ ends_with_hyphen (slug_of_title title) = false
  /\ has_double_hyphen (slug_of_title title) = false.
Proof.
  rewrite slug_of_title_written_out. split; [|split; [|split]].
  - apply forallb_forall. intros c. apply slug_written_out_alphabet.
  - apply strip_end_starts, drop_while_starts.
  - apply strip_end_ends.
  - apply strip_end_no_double, drop_while_no_double, squeeze_hyphens_no_double.
Qed.

(** Concrete runs of the derivation. *)
Example slug_of_title_conference :
  slug_of_title (js "  Hello, World! -- React Conf 2025  ")
  = js "hello-world-react-conf-2025".
Proof. vm_compute. reflexivity. Qed.

Example slug_of_title_hyphens :
  slug_of_title (js "--- C++  &  Rust: a   talk ---") = js "c-rust-a-talk".
Proof. vm_compute. reflexivity. Qed.

Example slug_of_title_underscores :
  slug_of_title (js "_snake_case_ Meetup") = js "_snake_case_-meetup".
Proof. vm_compute. reflexivity. Qed.

Example slug_of_title_punctuation : slug_of_title (js "?!...") = [].
Proof. vm_compute. reflexivity. Qed.

Section SlugTheorems.
Import EventModel.

(** The slug the hook stores for a modified title. *)
Lemma pre_save_slug (host : jsstring -> option Z)
      (isModified : string -> bool) (this : IEvent) :
  isModified "title"%string = true ->
  slug (fst (pre_save host isModified this)) = slug_of_title (title this).
Proof.
  intros Hm. rewrite pre_save_unfold. unfold after_title. rewrite Hm.
  assert (E : trim (toLowerCase (slug_of_title (title this)))
              = slug_of_title (title this)).
  { apply slug_setters_id. intros c Hc.
    destruct (slug_of_title_well_formed (title this)) as [A _].
    rewrite forallb_forall in A. now apply A. }
  destruct (date_rejected host isModified this); cbn [fst];
    [exact E|].
  destruct (isModified "date"%string); [|exact E].
  destruct (JsDate.new_Date host (date this)); exact E.
Qed.

(** C1 fails on the title "hello_world": the underscore is a word
    character, the hook keeps it, and the stored slug is outside
    [a-z0-9-].  The route's own [slugPattern] refuses that slug, so the
    saved event cannot be fetched. *)
Theorem underscore_kept_in_slug :
  let this := Samples.event "hello_world" "draft" "2025-01-15" "09:30" in
  let saved := fst (pre_save Samples.no_host
                      (Samples.modified ["title"]%string) this) in
  title this <> []
  /\ slug saved = js "hello_world"
  /\ forallb is_slug_char (slug saved) = false
  /\ slug saved = Route.sanitize (slug saved)
  /\ Route.GET (Route.VString (slug saved))
               (Samples.world (Some Samples.uri) false [saved])
     = ([], Return (Route.NextResponse_json
                      (Route.ErrorBody
                         (js "Slug contains invalid characters")) 400)).
Proof.
  cbv zeta.
  assert (E : slug (fst (pre_save Samples.no_host
                           (Samples.modified ["title"]%string)
                           (Samples.event "hello_world" "draft" "2025-01-15" "09:30")))
              = js "hello_world").
  { rewrite pre_save_slug by reflexivity. vm_compute. reflexivity. }
  split; [discriminate|]. split; [exact E|]. rewrite E.
  split; [reflexivity|]. split; [reflexivity|].
  rewrite GET_charset_invalid; reflexivity.
Qed.
End SlugTheorems.

(** ** The calendar of ECMAScript time values *)

Ltac month_consts :=
  repeat match goal with
         | |- context [JsDate.monthStart ?l (Zpos ?a + 1)%Z] =>
             let v := eval compute in (Zpos a + 1)%Z in
             change (Zpos a + 1)%Z with v
         | |- context [JsDate.monthStart ?l (0 + 1)%Z] => change (0 + 1)%Z with 1%Z
         | H : context [JsDate.monthStart ?l (Zpos ?a + 1)%Z] |- _ =>
             let v := eval compute in (Zpos a + 1)%Z in
             change (Zpos a + 1)%Z with v in H
         | H : context [JsDate.monthStart ?l (0 + 1)%Z] |- _ =>
             change (0 + 1)%Z with 1%Z in H
         end;
  cbn [JsDate.monthStart] in *.

Section CalendarFacts.
Import JsDate.
Local Open Scope Z_scope.

Lemma DaysInYear_cases (y : Z) : DaysInYear y = 365 \/ DaysInYear y = 366.
Proof. unfold DaysInYear. destruct (_ && _); auto. Qed.

Lemma leapDays_cases (y : Z) : leapDays y = 0 \/ leapDays y = 1.
Proof. unfold leapDays. destruct (DaysInYear_cases y); lia. Qed.

Lemma DayFromYear_succ (y : Z) :
  DayFromYear (y + 1) = DayFromYear y + DaysInYear y.
Proof.
  unfold DayFromYear, DaysInYear.
  destruct (y mod 4 =? 0) eqn:A, (y mod 100 =? 0) eqn:B, (y mod 400 =? 0) eqn:C;
    cbn [andb orb negb];
    rewrite ?Z.eqb_eq, ?Z.eqb_neq in *; 
    Z.to_euclidean_division_equations; lia.
Qed.

Lemma DayFromYear_mono (y1 y2 : Z) :
  y1 <= y2 -> DayFromYear y1 <= DayFromYear y2.
Proof.
  unfold DayFromYear. intros H. Z.to_euclidean_division_equations. lia.
Qed.

Lemma YearFromDay_spec (d : Z) :
  DayFromYear (YearFromDay d) <= d < DayFromYear (YearFromDay d + 1).
Proof.
  unfold YearFromDay.
  set (y0 := 1970 + 400 * d / 146097).
  destruct (DayFromYear (y0 + 1) <=? d) eqn:A; [apply Z.leb_le in A | apply Z.leb_gt in A].
  - split; [exact A|]. unfold DayFromYear in *. subst y0.
    Z.to_euclidean_division_equations. lia.
  - destruct (DayFromYear y0 <=? d) eqn:B; [apply Z.leb_le in B | apply Z.leb_gt in B].
    + split; assumption.
    + replace (y0 - 1 + 1) with y0 by lia. split; [|exact B].
      unfold DayFromYear in *. subst y0.
      Z.to_euclidean_division_equations. lia.
Qed.

Lemma YearFromDay_unique (d y : Z) :
  DayFromYear y <= d < DayFromYear (y + 1) -> YearFromDay d = y.
Proof.
  intros [H1 H2]. destruct (YearFromDay_spec d) as [S1 S2].
  destruct (Z.lt_trichotomy (YearFromDay d) y) as [L | [E | G]]; [|exact E|].
  - pose proof (DayFromYear_mono (YearFromDay d + 1) y). lia.
  - pose proof (DayFromYear_mono (y + 1) (YearFromDay d)). lia.
Qed.

Lemma DayWithinYear_range (t : Z) :
  0 <= DayWithinYear t < 365 + InLeapYear t.
Proof.
  unfold DayWithinYear, InLeapYear, leapDays, YearFromTime.
  destruct (YearFromDay_spec (Day t)) as [S1 S2].
  rewrite DayFromYear_succ in S2. lia.
Qed.

Lemma monthOfDay_spec (leap d : Z) :
  0 <= leap <= 1 -> 0 <= d < 365 + leap ->
  0 <= monthOfDay leap d <= 11
  /\ monthStart leap (monthOfDay leap d) <= d
     < monthStart leap (monthOfDay leap d + 1).
Proof.
  intros Hl Hd. unfold monthOfDay.
  repeat match goal with
         | |- context [?a <? ?b] =>
             destruct (Z.ltb_spec a b); cbn [monthStart] in *
         end; month_consts; lia.
Qed.

Lemma monthOfDay_unique (leap d m : Z) :
  0 <= leap <= 1 -> 0 <= m <= 11 ->
  monthStart leap m <= d < monthStart leap (m + 1) ->
  monthOfDay leap d = m.
Proof.
  intros Hl Hm Hd.
  assert (M : m = 0 \/ m = 1 \/ m = 2 \/ m = 3 \/ m = 4 \/ m = 5 \/ m = 6
              \/ m = 7 \/ m = 8 \/ m = 9 \/ m = 10 \/ m = 11) by lia.
  unfold monthOfDay.
  repeat match goal with
         | H : _ \/ _ |- _ => destruct H
         end; subst m; month_consts;
  repeat match goal with
         | |- context [?a <? ?b] =>
             destruct (Z.ltb_spec a b)
         end; lia.
Qed.

(** [MakeDay] undoes the three calendar functions. *)
Lemma MakeDay_of_time (t : Z) :
  MakeDay (YearFromTime t) (MonthFromTime t) (DateFromTime t) = Day t.
Proof.
  pose proof (DayWithinYear_range t) as R.
  pose proof (leapDays_cases (YearFromTime t)) as L.
  destruct (monthOfDay_spec (InLeapYear t) (DayWithinYear t)) as [M _];
    [unfold InLeapYear; lia | exact R |].
  unfold MakeDay, DateFromTime. fold (MonthFromTime t) in M.
  rewrite Z.div_small, Z.mod_small, Z.add_0_r by lia.
  unfold DayWithinYear, InLeapYear. lia.
Qed.

Lemma DateFromTime_range (t : Z) :
  1 <= DateFromTime t <= DaysInMonth (YearFromTime t) (MonthFromTime t).
Proof.
  pose proof (DayWithinYear_range t) as R.
  pose proof (leapDays_cases (YearFromTime t)) as L.
  destruct (monthOfDay_spec (InLeapYear t) (DayWithinYear t)) as [M B];
    [unfold InLeapYear; lia | exact R |].
  unfold DateFromTime, DaysInMonth, MonthFromTime, InLeapYear in *. lia.
Qed.

Lemma MonthFromTime_range (t : Z) : 0 <= MonthFromTime t <= 11.
Proof.
  pose proof (DayWithinYear_range t) as R.
  pose proof (leapDays_cases (YearFromTime t)) as L.
  destruct (monthOfDay_spec (InLeapYear t) (DayWithinYear t)) as [M B];
    [unfold InLeapYear; lia | exact R |]. exact M.
Qed.

Lemma DaysInMonth_le_31 (y m : Z) : 0 <= m <= 11 -> 28 <= DaysInMonth y m <= 31.
Proof.
  intros Hm. pose proof (leapDays_cases y) as L. unfold DaysInMonth.
  assert (M : m = 0 \/ m = 1 \/ m = 2 \/ m = 3 \/ m = 4 \/ m = 5 \/ m = 6
              \/ m = 7 \/ m = 8 \/ m = 9 \/ m = 10 \/ m = 11) by lia.
  repeat match goal with
         | H : _ \/ _ |- _ => destruct H
         end; subst m; month_consts; lia.
Qed.

(** The calendar functions undo [MakeDay] on the days that exist. *)
Lemma time_of_MakeDay (y m d : Z) :
  0 <= m <= 11 -> 1 <= d <= DaysInMonth y m ->
  let t := MakeDate (MakeDay y m d) 0 in
  Day t = MakeDay y m d
  /\ YearFromTime t = y /\ MonthFromTime t = m /\ DateFromTime t = d.
Proof.
  intros Hm Hd t.
  assert (D : Day t = MakeDay y m d).
  { unfold t, MakeDate, Day, msPerDay. rewrite Z.add_0_r. apply Z.div_mul. lia. }
  pose proof (leapDays_cases y) as L.
  assert (MD : MakeDay y m d = DayFromYear y + monthStart (leapDays y) m + d - 1).
  { unfold MakeDay. rewrite Z.div_small, Z.mod_small, Z.add_0_r by lia.
    reflexivity. }
  assert (MS : 0 <= monthStart (leapDays y) m
               /\ monthStart (leapDays y) (m + 1) <= 365 + leapDays y).
  { assert (M : m = 0 \/ m = 1 \/ m = 2 \/ m = 3 \/ m = 4 \/ m = 5 \/ m = 6
                \/ m = 7 \/ m = 8 \/ m = 9 \/ m = 10 \/ m = 11) by lia.
    repeat match goal with
           | H : _ \/ _ |- _ => destruct H
           end; subst m; month_consts; lia. }
  unfold DaysInMonth in Hd.
  assert (Y : YearFromTime t = y).
  { unfold YearFromTime. rewrite D. apply YearFromDay_unique.
    rewrite DayFromYear_succ. unfold leapDays in *. lia. }
  assert (W : DayWithinYear t = monthStart (leapDays y) m + d - 1).
  { unfold DayWithinYear. rewrite Y, D, MD. lia. }
  assert (Mo : MonthFromTime t = m).
  { unfold MonthFromTime, InLeapYear. rewrite Y, W.
    apply monthOfDay_unique; lia. }
  split; [exact D|]. split; [exact Y|]. split; [exact Mo|].
  unfold DateFromTime, InLeapYear. rewrite Mo, Y, W. lia.
Qed.
End CalendarFacts.

(** ** Date strings: digits, [split], and the two directions of the round trip *)

Section DateStrings.
Import JsDate.
Local Open Scope Z_scope.

Lemma digit_char (v : Z) :
  0 <= v <= 9 ->
  is_digit (Z.to_N (48 + v)) = true /\ digit (Z.to_N (48 + v)) = Some v.
Proof.
  intros H.
  assert (D : is_digit (Z.to_N (48 + v)) = true).
  { unfold is_digit, in_range. apply andb_true_iff.
    split; apply N.leb_le; lia. }
  split; [exact D|]. unfold digit. rewrite D. f_equal. lia.
Qed.

Lemma digit_inv (c : N) (v : Z) :
  digit c = Some v -> 0 <= v <= 9 /\ c = Z.to_N (48 + v).
Proof.
  unfold digit. destruct (is_digit c) eqn:D; [|discriminate].
  intros [= <-]. unfold is_digit, in_range in D.
  apply andb_true_iff in D as [D1 D2].
  apply N.leb_le in D1, D2. lia.
Qed.

Lemma number_from_app (acc : Z) (l1 l2 : jsstring) :
  number_from acc (l1 ++ l2)
  = match number_from acc l1 with
    | Some a => number_from a l2
    | None => None
    end.
Proof.
  revert acc. induction l1 as [|c l1 IH]; intros acc; [reflexivity|].
  cbn [app number_from]. destruct (digit c); [apply IH | reflexivity].
Qed.

Lemma number_from_one (acc : Z) (c : N) :
  number_from acc [c]
  = match digit c with
    | Some v => Some (10 * acc + v)
    | None => None
    end.
Proof. reflexivity. Qed.

Lemma digits_length (w : nat) (n : Z) : List.length (digits w n) = w.
Proof.
  revert n. induction w as [|w IH]; intros n; [reflexivity|].
  cbn [digits]. rewrite length_app, IH. cbn. lia.
Qed.

Lemma digits_are_digits (w : nat) (n : Z) (c : N) :
  In c (digits w n) -> is_digit c = true.
Proof.
  revert n. induction w as [|w IH]; intros n; [contradiction|].
  cbn [digits]. rewrite in_app_iff. intros [H | [<- | []]]; [eauto|].
  apply digit_char. pose proof (Z.mod_pos_bound n 10). lia.
Qed.

(** Reading back what [digits] wrote. *)
Lemma number_from_digits (w : nat) (acc n : Z) :
  0 <= n < 10 ^ Z.of_nat w ->
  number_from acc (digits w n) = Some (acc * 10 ^ Z.of_nat w + n).
Proof.
  revert acc n. induction w as [|w IH]; intros acc n H.
  - cbn in *. f_equal. lia.
  - rewrite Nat2Z.inj_succ, Z.pow_succ_r in * by lia.
    cbn [digits]. rewrite number_from_app, IH.
    + rewrite number_from_one.
      destruct (digit_char (n mod 10)) as [_ ->];
        [pose proof (Z.mod_pos_bound n 10); lia|].
      f_equal. Z.to_euclidean_division_equations. nia.
    + Z.to_euclidean_division_equations. nia.
Qed.

Lemma number_digits (w : nat) (n : Z) :
  (0 < w)%nat -> 0 <= n < 10 ^ Z.of_nat w ->
  number (digits w n) = Some n.
Proof.
  intros Hw H. unfold number.
  destruct (digits w n) eqn:E.
  - apply (f_equal (@List.length N)) in E. rewrite digits_length in E.
    cbn in E. lia.
  - rewrite <- E, number_from_digits by exact H. reflexivity.
Qed.

(** Writing again what [number] read. *)
Lemma number_from_inv (l : jsstring) (n : Z) :
  number_from 0 l = Some n ->
  0 <= n < 10 ^ Z.of_nat (List.length l) /\ digits (List.length l) n = l.
Proof.
  revert n. induction l as [|c l IH] using rev_ind; intros n H.
  - cbn in *. injection H as <-. split; [lia | reflexivity].
  - rewrite number_from_app in H.
    destruct (number_from 0 l) as [a|] eqn:A; [|discriminate].
    rewrite number_from_one in H.
    destruct (digit c) as [v|] eqn:V; [|discriminate].
    assert (E : n = 10 * a + v) by congruence. subst n. clear H.
    apply digit_inv in V as [V1 V2].
    destruct (IH a eq_refl) as [B1 B2].
    rewrite length_app, Nat.add_comm. cbn [List.length Nat.add].
    rewrite Nat2Z.inj_succ, Z.pow_succ_r by lia.
    split; [set (P := 10 ^ _) in *; lia|].
    cbn [digits].
    replace ((10 * a + v) / 10) with a
      by (Z.to_euclidean_division_equations; lia).
    replace ((10 * a + v) mod 10) with v
      by (Z.to_euclidean_division_equations; lia).
    now rewrite B2, V2.
Qed.

Lemma number_inv (l : jsstring) (n : Z) :
  number l = Some n ->
  0 <= n < 10 ^ Z.of_nat (List.length l) /\ digits (List.length l) n = l.
Proof.
  unfold number. destruct l; [discriminate|]. apply number_from_inv.
Qed.

Lemma split_cons (sep : N) (s : jsstring) :
  exists piece pieces, split sep s = piece :: pieces.
Proof.
  induction s as [|c s [p [ps IH]]]; cbn [split]; [eauto|].
  destruct (N.eqb c sep); [eauto|]. rewrite IH. eauto.
Qed.

(** The piece in front of the first separator. *)
Lemma split_hd (sep : N) (p r : jsstring) :
  ~ In sep p -> hd [] (split sep (p ++ sep :: r)) = p.
Proof.
  induction p as [|c p IH]; intros H; cbn [app split].
  - now rewrite N.eqb_refl.
  - destruct (N.eqb_spec c sep) as [->|Hc]; [elim H; now left|].
    destruct (split_cons sep (p ++ sep :: r)) as [a [l E]].
    rewrite E in *. cbn [hd] in *. f_equal. apply IH.
    intros X. apply H. now right.
Qed.

Lemma isoYear_chars (y : Z) (c : N) :
  In c (isoYear y) -> is_digit c = true \/ c = 45%N \/ c = 43%N.
Proof.
  unfold isoYear. destruct (_ && _).
  - intros H. left. exact (digits_are_digits _ _ _ H).
  - rewrite in_app_iff. intros [H | H].
    + destruct (y <? 0); destruct H as [<- | []]; auto.
    + left. exact (digits_are_digits _ _ _ H).
Qed.

Lemma isoDate_no_T (t : Z) : ~ In (N_of_ascii "T") (isoDate t).
Proof.
  unfold isoDate. rewrite !in_app_iff. intros H.
  assert (X : is_digit 84 = true \/ 84%N = 45%N \/ 84%N = 43%N).
  { destruct H as [H | [H | [H | [H | H]]]].
    - exact (isoYear_chars _ _ H).
    - destruct H as [H | []]. discriminate.
    - left. exact (digits_are_digits _ _ _ H).
    - destruct H as [H | []]. discriminate.
    - left. exact (digits_are_digits _ _ _ H). }
  destruct X as [X | [X | X]]; discriminate.
Qed.

(** [toISOString().split('T')[0]] is the date part of the ISO string. *)
Lemma normalized_date_isoDate (t : Z) :
  EventModel.normalized_date t = isoDate t.
Proof.
  unfold EventModel.normalized_date, toISOString.
  change (js "T" ++ isoTime t ++ js "Z")
    with (N_of_ascii "T" :: (isoTime t ++ js "Z")).
  apply split_hd, isoDate_no_T.
Qed.
End DateStrings.

Section DateRoundTrip.
Import JsDate.
Local Open Scope Z_scope.

Lemma parse_ymd_shape (ys ms ds rest : jsstring) :
  List.length ys = 4%nat -> List.length ms = 2%nat ->
  List.length ds = 2%nat ->
  parse_ymd (ys ++ js "-" ++ ms ++ js "-" ++ ds ++ rest)
  = match number ys, number ms, number ds with
    | Some y, Some m, Some d =>
        if (1 <=? m) && (m <=? 12)
           && (1 <=? d) && (d <=? DaysInMonth y (m - 1))
        then Some (MakeDay y (m - 1) d, rest)
        else None
    | _, _, _ => None
    end.
Proof.
  destruct ys as [|y1 [|y2 [|y3 [|y4 [|]]]]]; try discriminate.
  destruct ms as [|m1 [|m2 [|]]]; try discriminate.
  destruct ds as [|d1 [|d2 [|]]]; try discriminate.
  intros _ _ _. reflexivity.
Qed.

Lemma parse_ymd_digits (y m d : Z) (rest : jsstring) :
  0 <= y <= 9999 -> 1 <= m <= 12 -> 1 <= d <= DaysInMonth y (m - 1) ->
  parse_ymd (digits 4 y ++ js "-" ++ digits 2 m ++ js "-"
               ++ digits 2 d ++ rest)
  = Some (MakeDay y (m - 1) d, rest).
Proof.
  intros Hy Hm Hd.
  pose proof (DaysInMonth_le_31 y (m - 1)) as B.
  rewrite parse_ymd_shape by apply digits_length.
  rewrite !number_digits by (cbn; lia).
  replace ((1 <=? m) && (m <=? 12) && (1 <=? d)
           && (d <=? DaysInMonth y (m - 1))) with true; [reflexivity|].
  symmetry. rewrite !andb_true_iff, !Z.leb_le. lia.
Qed.

Lemma is_char_eq (a : ascii) (c : N) :
  is_char a c = true -> c = N_of_ascii a.
Proof. unfold is_char. apply N.eqb_eq. Qed.

Lemma parse_ymd_inv (s rest : jsstring) (day : Z) :
  parse_ymd s = Some (day, rest) ->
  exists y m d,
    s = digits 4 y ++ js "-" ++ digits 2 m ++ js "-" ++ digits 2 d ++ rest
    /\ 0 <= y <= 9999 /\ 1 <= m <= 12
    /\ 1 <= d <= DaysInMonth y (m - 1)
    /\ day = MakeDay y (m - 1) d.
Proof.
  unfold parse_ymd.
  destruct s as [|y1 [|y2 [|y3 [|y4 [|h1 [|m1 [|m2 [|h2 [|d1 [|d2 r]]]]]]]]]];
    try discriminate.
  destruct (number [y1; y2; y3; y4]) as [y|] eqn:Ny; [|discriminate].
  destruct (number [m1; m2]) as [m|] eqn:Nm; [|discriminate].
  destruct (number [d1; d2]) as [d|] eqn:Nd; [|discriminate].
  destruct (is_char "-" h1 && is_char "-" h2 && (1 <=? m) && (m <=? 12)
            && (1 <=? d) && (d <=? DaysInMonth y (m - 1))) eqn:C;
    [|discriminate].
  intros E. assert (E1 : day = MakeDay y (m - 1) d) by congruence.
  assert (E2 : rest = r) by congruence. subst day rest. clear E.
  rewrite !andb_true_iff, !Z.leb_le in C.
  destruct C as [[[[[C1 C2] C3] C4] C5] C6].
  apply is_char_eq in C1, C2. subst h1 h2.
  apply number_inv in Ny as [By Ey], Nm as [Bm Em], Nd as [Bd Ed].
  exists y, m, d. cbn [List.length] in *.
  rewrite Ey, Em, Ed. change (10 ^ Z.of_nat 4) with 10000 in By.
  repeat split; try lia. 
Qed.

Lemma is_digit_mod (n : Z) : is_digit (Z.to_N (48 + n mod 10)) = true.
Proof.
  apply digit_char. pose proof (Z.mod_pos_bound n 10). lia.
Qed.

Lemma is_YYYY_MM_DD_digits (y m d : Z) :
  EventModel.is_YYYY_MM_DD
    (digits 4 y ++ js "-" ++ digits 2 m ++ js "-" ++ digits 2 d) = true.
Proof.
  cbn [digits app]. unfold EventModel.is_YYYY_MM_DD.
  cbn [js list_ascii_of_string map app forallb].
  rewrite !is_digit_mod. reflexivity.
Qed.

Lemma isoYear_four_digits (y : Z) :
  0 <= y <= 9999 -> isoYear y = digits 4 y.
Proof.
  intros H. unfold isoYear.
  replace ((0 <=? y) && (y <=? 9999)) with true; [reflexivity|].
  symmetry. rewrite andb_true_iff, !Z.leb_le. lia.
Qed.

(** In the years 0 to 9999 the date part of the ISO string has the form
    [YYYY-MM-DD] and reads back as the UTC day of the time value. *)
Lemma isoDate_denotes_UTC_day (t : Z) :
  0 <= YearFromTime t <= 9999 ->
  EventModel.is_YYYY_MM_DD (isoDate t) = true
  /\ parse_iso (isoDate t) = Some (MakeDate (Day t) 0).
Proof.
  intros Hy. unfold isoDate. rewrite (isoYear_four_digits _ Hy).
  split; [apply is_YYYY_MM_DD_digits|].
  pose proof (MonthFromTime_range t) as Hm.
  pose proof (DateFromTime_range t) as Hd.
  unfold parse_iso.
  rewrite <- (app_nil_r (digits 2 (DateFromTime t))).
  rewrite parse_ymd_digits; try lia.
  - replace (MonthFromTime t + 1 - 1) with (MonthFromTime t) by lia.
    now rewrite MakeDay_of_time.
  - replace (MonthFromTime t + 1 - 1) with (MonthFromTime t) by lia.
    exact Hd.
Qed.

Lemma DayFromYear_bounds (y : Z) :
  0 <= y <= 9999 -> -719528 <= DayFromYear y <= 2932532.
Proof.
  intros H. unfold DayFromYear. Z.to_euclidean_division_equations. lia.
Qed.

(** A date-only string that names a day of the calendar is parsed as UTC
    midnight of that day, and the date part of the ISO string of that
    time value is the string itself. *)
Lemma date_only_round_trip (host : jsstring -> option Z) (s : jsstring)
      (day : Z) :
  parse_ymd s = Some (day, []) ->
  new_Date host s = Some (MakeDate day 0)
  /\ isoDate (MakeDate day 0) = s.
Proof.
  intros P. assert (P' := P).
  apply parse_ymd_inv in P' as [y [m [d [Es [Hy [Hm [Hd Ed]]]]]]].
  pose proof (DaysInMonth_le_31 y (m - 1)) as B31.
  destruct (time_of_MakeDay y (m - 1) d) as [D [Y [Mo Da]]]; [lia | lia |].
  rewrite <- Ed in *. split.
  - unfold new_Date, parse, parse_iso. rewrite P.
    unfold TimeClip.
    replace (Z.abs (MakeDate day 0) <=? 8640000000000000) with true;
      [reflexivity|].
    symmetry. apply Z.leb_le.
    pose proof (DayFromYear_bounds y Hy) as By.
    pose proof (leapDays_cases y) as L.
    assert (MS : 0 <= monthStart (leapDays y) (m - 1) <= 335).
    { remember (m - 1) as m0 eqn:Em0.
      assert (M : m0 = 0 \/ m0 = 1 \/ m0 = 2 \/ m0 = 3 \/ m0 = 4 \/ m0 = 5
                  \/ m0 = 6 \/ m0 = 7 \/ m0 = 8 \/ m0 = 9 \/ m0 = 10
                  \/ m0 = 11) by lia.
      clear - M L.
      repeat match goal with
             | H : _ \/ _ |- _ => destruct H
             end; subst m0; cbn [monthStart]; lia. }
    assert (MD : day = DayFromYear y + monthStart (leapDays y) (m - 1) + d - 1).
    { rewrite Ed. unfold MakeDay.
      rewrite Z.div_small, Z.mod_small, Z.add_0_r by lia. reflexivity. }
    unfold MakeDate, msPerDay. lia.
  - unfold isoDate. rewrite Y, Mo, Da, (isoYear_four_digits _ Hy).
    replace (m - 1 + 1) with m by lia.
    rewrite Es, app_nil_r. reflexivity.
Qed.
End DateRoundTrip.

(** Concrete runs of the date functions. *)
Example toISOString_epoch :
  JsDate.toISOString 0 = js "1970-01-01T00:00:00.000Z".
Proof. vm_compute. reflexivity. Qed.

Example toISOString_before_epoch :
  JsDate.toISOString (-1) = js "1969-12-31T23:59:59.999Z".
Proof. vm_compute. reflexivity. Qed.

Example new_Date_leap_day :
  JsDate.new_Date Samples.no_host (js "2024-02-29") = Some 1709164800000%Z
  /\ JsDate.parse_iso (js "2023-02-29") = None.
Proof. split; vm_compute; reflexivity. Qed.

Example new_Date_with_offset :
  JsDate.new_Date Samples.no_host (js "2025-01-15T23:30:00-05:00")
  = JsDate.new_Date Samples.no_host (js "2025-01-16T04:30:00Z").
Proof. vm_compute. reflexivity. Qed.

Section DateTheorems.
Import EventModel.
Local Open Scope Z_scope.

(** C2, as stated, fails in two ways.  A string with a zone offset parses
    as a calendar date, and the date stored is the UTC day of the instant,
    here the day after the one written.  And an instant in the year 10000
    is stored with a sign and a six-digit year, which is not of the form
    [YYYY-MM-DD]. *)
Lemma zone_offset_moves_the_date :
  let isModified := Samples.modified ["date"%string] in
  let this := Samples.event "My Event" "my-event" "2025-01-15T23:30:00-05:00" "09:30" in
  let that := Samples.event "My Event" "my-event" "9999-12-31T23:59:59-01:00" "09:30" in
  JsDate.new_Date Samples.no_host (date this) <> None
  /\ snd (pre_save Samples.no_host isModified this) = Return tt
  /\ date (fst (pre_save Samples.no_host isModified this)) = js "2025-01-16"
  /\ date (fst (pre_save Samples.no_host isModified this)) <> js "2025-01-15"
  /\ JsDate.new_Date Samples.no_host (date that) <> None
  /\ date (fst (pre_save Samples.no_host isModified that)) = js "+010000-01-01"
  /\ is_YYYY_MM_DD (date (fst (pre_save Samples.no_host isModified that)))
     = false.
Proof.
  cbv zeta. split; [vm_compute; discriminate|].
  split; [vm_compute; reflexivity|]. split; [vm_compute; reflexivity|].
  split; [vm_compute; discriminate|].
  split; [vm_compute; discriminate|].
  split; vm_compute; reflexivity.
Qed.

(** C2 (amended).  For every modified date field: if the string does not
    parse, the hook aborts the write with the error "Invalid date format"
    and nothing is written; if it parses to a time value [t], the hook
    rewrites the field to the date part of the UTC ISO string of [t],
    which for [t] in the years 0 to 9999 has the form [YYYY-MM-DD] and
    denotes the UTC day of [t]; when the string is itself a date-only
    [YYYY-MM-DD] naming a day of the calendar, that is the date written
    and the field keeps its value. *)
Theorem date_rewritten_to_UTC_day
        (host : jsstring -> option Z) (isModified : string -> bool)
        (write : list IEvent -> IEvent -> list IEvent * result unit)
        (docs : list IEvent) (this : IEvent) :
  isModified "date"%string = true ->
  (JsDate.new_Date host (date this) = None ->
   snd (pre_save host isModified this) = Throw date_error
   /\ save host isModified write docs this = (docs, Throw date_error))
  /\ (forall t, JsDate.new_Date host (date this) = Some t ->
        date (fst (pre_save host isModified this)) = JsDate.isoDate t
        /\ (0 <= JsDate.YearFromTime t <= 9999 ->
            is_YYYY_MM_DD (JsDate.isoDate t) = true
            /\ JsDate.parse_iso (JsDate.isoDate t)
               = Some (JsDate.MakeDate (JsDate.Day t) 0)))
  /\ (forall day, JsDate.parse_ymd (date this) = Some (day, []) ->
        date (fst (pre_save host isModified this)) = date this).
Proof.
  intros Hm.
  assert (Ok : forall t, JsDate.new_Date host (date this) = Some t ->
               date (fst (pre_save host isModified this)) = JsDate.isoDate t).
  { intros t Ht. rewrite pre_save_unfold. unfold date_rejected.
    rewrite Hm, Ht. cbn [andb fst date set_date].
    apply normalized_date_isoDate. }
  split; [|split].
  - intros Hn.
    assert (E : snd (pre_save host isModified this) = Throw date_error).
    { rewrite pre_save_result. unfold date_rejected. now rewrite Hm, Hn. }
    split; [exact E | now apply save_rejected].
  - intros t Ht. split; [now apply Ok|]. apply isoDate_denotes_UTC_day.
  - intros day Hp.
    destruct (date_only_round_trip host (date this) day Hp) as [N E].
    rewrite (Ok _ N). exact E.
Qed.

Lemma date_rewritten_to_UTC_day_witness :
  Samples.modified ["date"%string] "date"%string = true
  /\ date (fst (pre_save Samples.no_host (Samples.modified ["date"%string])
                  (Samples.event "My Event" "my-event" "2025-01-15" "09:30")))
     = js "2025-01-15".
Proof.
  split; [reflexivity|].
  apply (proj2 (proj2 (date_rewritten_to_UTC_day
                         Samples.no_host (Samples.modified ["date"%string])
                         (fun docs d => (d :: docs, Return tt)) []
                         (Samples.event "My Event" "my-event" "2025-01-15" "09:30")
                         eq_refl))
           20103).
  vm_compute. reflexivity.
Defined.
End DateTheorems.

Section EmptySlugTheorems.
Import EventModel.

(** C10.  When the modified title reduces to nothing under the slug
    transform, the hook sets the slug to the empty string and no error
    comes of it: the hook ends as it would have ended without the slug
    step, and it completes when the date and time checks pass. *)
Theorem empty_slug_is_not_rejected
        (host : jsstring -> option Z) (isModified : string -> bool)
        (this : IEvent) :
  isModified "title"%string = true ->
  slug_of_title (title this) = [] ->
  slug (fst (pre_save host isModified this)) = []
  /\ snd (pre_save host isModified this)
     = snd (pre_save host
              (fun path => if String.eqb path "title" then false
                           else isModified path)
              this)
  /\ (date_rejected host isModified this = false ->
      time_rejected isModified this = false ->
      snd (pre_save host isModified this) = Return tt).
Proof.
  intros Hm He. split; [|split].
  - rewrite pre_save_slug by exact Hm. exact He.
  - rewrite !pre_save_result. reflexivity.
  - intros Hd Ht. now rewrite pre_save_result, Hd, Ht.
Qed.

Lemma empty_slug_is_not_rejected_witness :
  (Samples.modified ["title"%string] "title"%string = true
   /\ slug_of_title (title (Samples.event "?!..." "old" "2025-01-15" "09:30"))
      = [])
  /\ slug (fst (pre_save Samples.no_host (Samples.modified ["title"%string])
                  (Samples.event "?!..." "old" "2025-01-15" "09:30")))
     = []
  /\ snd (pre_save Samples.no_host (Samples.modified ["title"%string])
             (Samples.event "?!..." "old" "2025-01-15" "09:30"))
     = Return tt.
Proof.
  split; [split; [reflexivity | vm_compute; reflexivity]|].
  destruct (empty_slug_is_not_rejected
              Samples.no_host (Samples.modified ["title"%string])
              (Samples.event "?!..." "old" "2025-01-15" "09:30")
              eq_refl eq_refl) as [H1 [_ H3]].
  split; [exact H1 | exact (H3 eq_refl eq_refl)].
Defined.
End EmptySlugTheorems.

(* ====================================================================== *)
(** * Part III.  Further properties of the code                              *)
(* ====================================================================== *)

(** ** Further properties of the slug derivation *)

Lemma squeeze_none (p : N -> bool) (rep : jsstring) (b : bool) (s : jsstring) :
  (forall c, In c s -> p c = false) -> squeeze p rep b s = s.
Proof.
  revert b. induction s as [|c s IH]; intros b H; [reflexivity|].
  cbn [squeeze]. rewrite (H c (or_introl eq_refl)). f_equal.
  apply IH. intros d Hd. apply H. now right.
Qed.

Lemma squeeze_hyphens_id (s : jsstring) :
  has_double_hyphen s = false ->
  squeeze is_hyphen [hyphen] false s = s
  /\ (starts_with_hyphen s = false -> squeeze is_hyphen [hyphen] true s = s).
Proof.
  induction s as [|c s IH]; intros H; [split; reflexivity|].
  cbn [has_double_hyphen] in H. apply orb_false_iff in H as [H1 H2].
  destruct (IH H2) as [IH1 IH2]. cbn [squeeze starts_with_hyphen].
  destruct (is_hyphen c) eqn:Hc.
  - split; [|discriminate]. cbn [andb] in H1.
    rewrite (IH2 H1), (is_hyphen_eq _ Hc). reflexivity.
  - split; [|intros _]; now rewrite IH1.
Qed.

Lemma drop_while_id (p : N -> bool) (s : jsstring) :
  match s with c :: _ => p c = false | [] => True end ->
  drop_while p s = s.
Proof. destruct s as [|c s]; [reflexivity|]. intros H. simpl. now rewrite H. Qed.

Lemma ends_with_hyphen_cons (c : N) (s : jsstring) :
  s <> [] -> ends_with_hyphen (c :: s) = ends_with_hyphen s.
Proof.
  intros H. unfold ends_with_hyphen. cbn [rev].
  apply starts_with_hyphen_app. intros X. apply H.
  apply (f_equal (@rev N)) in X. now rewrite rev_involutive in X.
Qed.

Lemma all_hyphens_end (s : jsstring) :
  s <> [] -> forallb is_hyphen s = true -> ends_with_hyphen s = true.
Proof.
  induction s as [|c s IH]; [congruence|]. intros _ H.
  cbn [forallb] in H. apply andb_true_iff in H as [Hc Hs].
  destruct s as [|d s]; [exact Hc|].
  rewrite ends_with_hyphen_cons by discriminate. apply IH; [discriminate | exact Hs].
Qed.

Lemma strip_end_id (s : jsstring) :
  ends_with_hyphen s = false -> strip_end is_hyphen s = s.
Proof.
  induction s as [|c s IH]; [reflexivity|]. intros H. cbn [strip_end].
  destruct (forallb is_hyphen (c :: s)) eqn:F.
  - rewrite (all_hyphens_end (c :: s)) in H by (discriminate || exact F).
    discriminate.
  - f_equal. destruct s as [|d s]; [reflexivity|]. apply IH.
    now rewrite ends_with_hyphen_cons in H by discriminate.
Qed.

Lemma filter_id {A} (f : A -> bool) (l : list A) :
  (forall x, In x l -> f x = true) -> filter f l = l.
Proof.
  induction l as [|a l IH]; intros H; [reflexivity|]. simpl.
  rewrite (H a (or_introl eq_refl)). f_equal. apply IH. intros x Hx.
  apply H. now right.
Qed.

(** A string that has the shape of a derived slug is its own slug. *)
Lemma slug_written_out_fixed (s : jsstring) :
  forallb is_slug_char_or_underscore s = true ->
  starts_with_hyphen s = false ->
  ends_with_hyphen s = false ->
  has_double_hyphen s = false ->
  slug_written_out s = s.
Proof.
  intros A B C D. rewrite forallb_forall in A. unfold slug_written_out.
  rewrite (slug_setters_id s A).
  rewrite filter_id by (intros c Hc; apply A in Hc; clear - Hc; classes).
  rewrite (squeeze_none is_space)
    by (intros c Hc; apply A in Hc; clear - Hc; classes).
  rewrite (proj1 (squeeze_hyphens_id s D)).
  rewrite drop_while_id by (destruct s; [exact I | exact B]).
  now apply strip_end_id.
Qed.

(** Units that survive. *)
Lemma drop_while_keeps (p : N -> bool) (s : jsstring) (c : N) :
  In c s -> p c = false -> In c (drop_while p s).
Proof.
  induction s as [|d s IH]; [contradiction|]. intros H Hc. cbn [drop_while].
  destruct (p d) eqn:Hd; [|exact H].
  destruct H as [-> | H]; [congruence | now apply IH].
Qed.

Lemma trim_keeps (s : jsstring) (c : N) :
  In c s -> is_space c = false -> In c (trim s).
Proof.
  intros H Hc. unfold trim, trimEnd. rewrite !trimStart_drop_while.
  apply in_rev. rewrite rev_involutive.
  apply drop_while_keeps; [|exact Hc]. apply -> in_rev.
  now apply drop_while_keeps.
Qed.

Lemma squeeze_keeps (p : N -> bool) (rep : jsstring) (b : bool)
      (s : jsstring) (c : N) :
  In c s -> p c = false -> In c (squeeze p rep b s).
Proof.
  revert b. induction s as [|d s IH]; intros b H Hc; [contradiction|].
  cbn [squeeze]. destruct H as [-> | H].
  - rewrite Hc. now left.
  - destruct (p d); [destruct b; [|apply in_or_app; right] | right];
      now apply IH.
Qed.

Lemma strip_end_keeps (p : N -> bool) (s : jsstring) (c : N) :
  In c s -> p c = false -> In c (strip_end p s).
Proof.
  induction s as [|d s IH]; [contradiction|]. intros H Hc. cbn [strip_end].
  destruct (forallb p (d :: s)) eqn:F.
  - rewrite forallb_forall in F. rewrite (F c H) in Hc. discriminate.
  - destruct H as [-> | H]; [now left | right; now apply IH].
Qed.

Lemma drop_while_all (p : N -> bool) (s : jsstring) :
  forallb p s = true -> drop_while p s = [].
Proof.
  induction s as [|c s IH]; [reflexivity|]. cbn [forallb drop_while].
  intros H. apply andb_true_iff in H as [Hc Hs]. rewrite Hc. now apply IH.
Qed.

(** A word unit of the lower-cased title is in the slug. *)
Lemma word_unit_in_slug (title : jsstring) (c : N) :
  In c (toLowerCase title) -> is_word c = true ->
  In c (slug_written_out title).
Proof.
  intros H Hw. unfold slug_written_out.
  assert (S : is_space c = false) by (clear - Hw; classes).
  assert (Hy : is_hyphen c = false) by (clear - Hw; classes).
  apply strip_end_keeps; [|exact Hy]. apply drop_while_keeps; [|exact Hy].
  apply squeeze_keeps; [|exact Hy]. apply squeeze_keeps; [|exact S].
  apply filter_In. split; [now apply trim_keeps|].
  unfold is_word_space_hyphen. now rewrite Hw.
Qed.

Lemma slug_written_out_no_word (title : jsstring) :
  Terms.has_word (toLowerCase title) = false -> slug_written_out title = [].
Proof.
  intros H. unfold slug_written_out.
  rewrite drop_while_all; [reflexivity|].
  apply forallb_forall. intros c Hc.
  apply squeeze_In in Hc. destruct Hc as [[<- | []] | [Hc Hh]]; [reflexivity|].
  apply squeeze_In in Hc. destruct Hc as [[<- | []] | [Hc Hs]]; [reflexivity|].
  apply filter_In in Hc. destruct Hc as [Hc Hk]. apply trim_In in Hc.
  unfold Terms.has_word in H.
  assert (W : is_word c = false).
  { destruct (is_word c) eqn:W; [|reflexivity].
    assert (X : existsb is_word (toLowerCase title) = true)
      by (apply existsb_exists; now exists c).
    congruence. }
  clear - Hk Hs Hh W. unfold is_word_space_hyphen in Hk.
  rewrite W, Hs, Hh in Hk. discriminate.
Qed.

(** ** [trim] and [toLowerCase] *)

Section TrimLower.
Import Terms.

Lemma trimStart_starts (s : jsstring) :
  starts_with_space (trimStart s) = false.
Proof.
  induction s as [|c s IH]; [reflexivity|]. cbn [trimStart].
  destruct (is_space c) eqn:Hc; [exact IH | exact Hc].
Qed.

Lemma trimStart_fixed (s : jsstring) :
  starts_with_space s = false -> trimStart s = s.
Proof. destruct s as [|c s]; [reflexivity|]. cbn. now intros ->. Qed.

(** [trim s] is [s] between two blank strings. *)
Lemma trim_split (s : jsstring) :
  exists a b, s = a ++ trim s ++ b
              /\ forallb is_space a = true /\ forallb is_space b = true.
Proof.
  destruct (trimStart_suffix s) as [a [Ha Hba]].
  destruct (trimStart_suffix (rev (trimStart s))) as [q [Hq Hbq]].
  exists a, (rev q). split; [|split; [exact Hba | now rewrite forallb_rev]].
  unfold trim, trimEnd. rewrite <- rev_app_distr, <- Hq, rev_involutive.
  exact Ha.
Qed.

Lemma trim_starts (s : jsstring) : starts_with_space (trim s) = false.
Proof.
  destruct (trimStart_suffix (rev (trimStart s))) as [q [Hq _]].
  assert (E : trimStart s = trim s ++ rev q).
  { unfold trim, trimEnd. rewrite <- rev_app_distr, <- Hq.
    now rewrite rev_involutive. }
  pose proof (trimStart_starts s) as H. rewrite E in H.
  destruct (trim s); [reflexivity | exact H].
Qed.

Lemma trim_ends (s : jsstring) : ends_with_space (trim s) = false.
Proof.
  unfold ends_with_space, trim, trimEnd. rewrite rev_involutive.
  apply trimStart_starts.
Qed.

Lemma trim_fixed (s : jsstring) :
  starts_with_space s = false -> ends_with_space s = false -> trim s = s.
Proof.
  intros A B. unfold trim, trimEnd.
  rewrite (trimStart_fixed s A), (trimStart_fixed (rev s) B).
  apply rev_involutive.
Qed.

Lemma trim_idempotent (s : jsstring) : trim (trim s) = trim s.
Proof. apply trim_fixed; [apply trim_starts | apply trim_ends]. Qed.

Lemma lower_unit_space (c : N) : is_space c = true -> lower_unit c = [c].
Proof.
  intros H. unfold lower_unit.
  assert (U : is_upper c = false) by (clear - H; classes).
  assert (U1 : N.eqb c 304 = false) by (clear - H; apply N.eqb_neq; classes).
  assert (U2 : N.eqb c 8490 = false) by (clear - H; apply N.eqb_neq; classes).
  now rewrite U, U1, U2.
Qed.

Lemma lower_unit_not_space (c d : N) :
  is_space c = false -> In d (lower_unit c) -> is_space d = false.
Proof.
  intros H. unfold lower_unit. destruct (is_upper c) eqn:U.
  - intros [<- | []]. clear - U. classes.
  - destruct (N.eqb c 304); [intros [<- | [<- | []]]; reflexivity|].
    destruct (N.eqb c 8490); [intros [<- | []]; reflexivity|].
    intros [<- | []]. exact H.
Qed.

Lemma lower_unit_not_nil (c : N) : lower_unit c <> [].
Proof.
  unfold lower_unit.
  destruct (is_upper c), (N.eqb c 304), (N.eqb c 8490); discriminate.
Qed.

Section UnitMaps.
(** A map on code units that leaves white space alone and sends every other
    unit to a non-empty string without white space. *)
Variable g : N -> jsstring.
Hypothesis g_space : forall c, is_space c = true -> g c = [c].
Hypothesis g_other :
  forall c, is_space c = false ->
            g c <> [] /\ forall d, In d (g c) -> is_space d = false.

End UnitMaps.







Lemma toLowerCase_blank (s : jsstring) :
  forallb is_space (toLowerCase s) = forallb is_space s.
Proof.
  unfold toLowerCase. induction s as [|c s IH]; [reflexivity|].
  cbn [flat_map forallb]. rewrite forallb_app, IH. f_equal.
  destruct (is_space c) eqn:Hc.
  - rewrite (lower_unit_space c Hc). cbn. now rewrite Hc.
  - pose proof (lower_unit_not_nil c) as Hn.
    destruct (lower_unit c) as [|d l] eqn:E; [now elim Hn|].
    cbn. rewrite (lower_unit_not_space c d Hc); [reflexivity|].
    rewrite E. now left.
Qed.

Lemma sanitize_blank (s : jsstring) :
  forallb is_space (Route.sanitize s) = forallb is_space s.
Proof.
  unfold Route.sanitize. rewrite toLowerCase_blank.
  destruct (forallb is_space s) eqn:F.
  - apply trim_nil_iff in F. now rewrite F.
  - destruct (forallb is_space (trim s)) eqn:G; [|reflexivity].
    assert (X : trim (trim s) = []) by now apply trim_nil_iff.
    rewrite trim_idempotent in X. apply trim_nil_iff in X. congruence.
Qed.
End TrimLower.

(** ** The slug, the hook and the route together *)

Section SlugExtras.
Import EventModel Terms.

Lemma slug_units_from_title (title : jsstring) (c : N) :
  In c (slug_written_out title) -> c = hyphen \/ In c (toLowerCase title).
Proof.
  unfold slug_written_out. intros H.
  apply strip_end_In, drop_while_In, squeeze_In in H.
  destruct H as [[<- | []] | [H _]]; [now left|].
  apply squeeze_In in H. destruct H as [[<- | []] | [H _]]; [now left|].
  apply filter_In in H. destruct H as [H _]. right. now apply trim_In in H.
Qed.

Lemma toLowerCase_underscore (s : jsstring) :
  In 95%N (toLowerCase s) <-> In 95%N s.
Proof.
  unfold toLowerCase. rewrite in_flat_map. split.
  - intros [c [Hc H]]. unfold lower_unit in H.
    destruct (is_upper c) eqn:U.
    + destruct H as [H | []]. exfalso. clear - U H. classes.
    + destruct (N.eqb c 304); [destruct H as [H | [H | []]]; discriminate|].
      destruct (N.eqb c 8490); [destruct H as [H | []]; discriminate|].
      destruct H as [<- | []]. exact Hc.
  - intros H. exists 95%N. split; [exact H | now left].
Qed.

Lemma has_underscore_In (s : jsstring) :
  has_underscore s = true <-> In 95%N s.
Proof.
  unfold has_underscore. rewrite existsb_exists. split.
  - intros [c [Hc E]]. apply N.eqb_eq in E. now subst c.
  - intros H. exists 95%N. split; [exact H | reflexivity].
Qed.

(** X1.  The slug the hook stores for a modified title is over the
    alphabet [a-z0-9_-], has no hyphen at either end and no two hyphens in
    a row; the two setters of the path change nothing in it. *)
Theorem stored_slug_shape (host : jsstring -> option Z)
        (isModified : string -> bool) (this : IEvent) :
  isModified "title"%string = true ->
  let s := slug (fst (pre_save host isModified this)) in
  s = slug_of_title (title this)
  /\ forallb is_slug_char_or_underscore s = true
  /\ starts_with_hyphen s = false
  /\ ends_with_hyphen s = false
  /\ has_double_hyphen s = false.
Proof.
  intros Hm. cbv zeta. rewrite (pre_save_slug host isModified this Hm).
  split; [reflexivity | apply slug_of_title_well_formed].
Qed.

Lemma stored_slug_shape_witness :
  Samples.modified ["title"%string] "title"%string = true
  /\ slug (fst (pre_save Samples.no_host (Samples.modified ["title"%string])
                  (Samples.event "  Rust & Go -- Meetup!  " "draft"
                                 "2025-01-15" "09:30")))
     = js "rust-go-meetup".
Proof.
  split; [reflexivity|].
  destruct (stored_slug_shape Samples.no_host
              (Samples.modified ["title"%string])
              (Samples.event "  Rust & Go -- Meetup!  " "draft"
                             "2025-01-15" "09:30") eq_refl) as [E _].
  rewrite E. vm_compute. reflexivity.
Defined.

(** X2.  Deriving a slug is idempotent: the slug of a slug is that slug. *)
Theorem slug_of_title_idempotent (title : jsstring) :
  slug_of_title (slug_of_title title) = slug_of_title title.
Proof.
  destruct (slug_of_title_well_formed title) as [A [B [C D]]].
  rewrite (slug_of_title_written_out (slug_of_title title)).
  now apply slug_written_out_fixed.
Qed.

Lemma slug_of_title_nil_iff (title : jsstring) :
  slug_of_title title = [] <-> has_word (toLowerCase title) = false.
Proof.
  rewrite slug_of_title_written_out. split.
  - intros E. destruct (has_word (toLowerCase title)) eqn:W; [|reflexivity].
    unfold has_word in W. apply existsb_exists in W as [c [Hc Hw]].
    pose proof (word_unit_in_slug title c Hc Hw) as H. rewrite E in H.
    contradiction.
  - apply slug_written_out_no_word.
Qed.

(** X3.  The slug is empty exactly when the lower-cased title has no word
    character (no letter a-z, no digit, no underscore). *)
Theorem slug_empty_iff (title : jsstring) :
  slug_of_title title = [] <-> has_word (toLowerCase title) = false.
Proof. exact (slug_of_title_nil_iff title). Qed.



Lemma slugPattern_slug_of_title (title : jsstring) :
  test Route.slugPattern (slug_of_title title)
  = has_word (toLowerCase title) && negb (has_underscore title).
Proof.
  unfold Route.slugPattern. rewrite test_anchored_plus.
  destruct (has_word (toLowerCase title)) eqn:W.
  - assert (N : slug_of_title title <> []).
    { intros E. apply slug_of_title_nil_iff in E. congruence. }
    destruct (slug_of_title title) as [|c0 s0] eqn:S; [now elim N|].
    rewrite <- S. clear N. cbn [andb].
    destruct (slug_of_title_well_formed title) as [A _].
    rewrite forallb_forall in A.
    destruct (has_underscore title) eqn:U; cbn [negb].
    + apply (proj1 (has_underscore_In title)) in U.
      apply (proj2 (toLowerCase_underscore title)) in U.
      pose proof (word_unit_in_slug title 95%N U eq_refl) as H.
      rewrite <- slug_of_title_written_out in H.
      destruct (forallb is_slug_char (slug_of_title title)) eqn:F;
        [|reflexivity].
      rewrite forallb_forall in F. specialize (F _ H). discriminate.
    + apply forallb_forall. intros c Hc. pose proof (A c Hc) as Ac.
      assert (X : c <> 95%N).
      { intros ->. rewrite slug_of_title_written_out in Hc.
        apply slug_units_from_title in Hc. destruct Hc as [Hc | Hc];
          [discriminate|].
        apply (proj1 (toLowerCase_underscore title)) in Hc.
        apply (proj2 (has_underscore_In title)) in Hc. congruence. }
      clear - Ac X. unfold is_slug_char_or_underscore in Ac.
      apply orb_true_iff in Ac as [Ac | Ac]; [exact Ac|].
      apply N.eqb_eq in Ac. contradiction.
  - apply slug_of_title_nil_iff in W. now rewrite W.
Qed.

(** X5.  The derived slug is one the route accepts exactly when the title
    has a word character and no underscore. *)
Theorem derived_slug_accepted_iff (title : jsstring) :
  test Route.slugPattern (slug_of_title title)
  = has_word (toLowerCase title) && negb (has_underscore title).
Proof. exact (slugPattern_slug_of_title title). Qed.
End SlugExtras.

(** ** The hook as a whole *)

Section HookExtras.
Import EventModel Terms.
Local Open Scope Z_scope.

Lemma with_slug_and_date_self (this : IEvent) :
  with_slug_and_date (slug this) (date this) this = this.
Proof. destruct this. reflexivity. Qed.

Lemma set_slug_derived (t : jsstring) (this : IEvent) :
  set_slug (slug_of_title t) this
  = with_slug_and_date (slug_of_title t) (date this) this.
Proof.
  unfold set_slug, with_slug_and_date.
  rewrite slug_setters_id; [reflexivity|].
  destruct (slug_of_title_well_formed t) as [A _].
  now rewrite forallb_forall in A.
Qed.

Lemma after_title_document (isModified : string -> bool) (this : IEvent) :
  after_title isModified this
  = with_slug_and_date (slug_after isModified this) (date this) this.
Proof.
  unfold after_title, slug_after. destruct (isModified "title"%string).
  - apply set_slug_derived.
  - symmetry. apply with_slug_and_date_self.
Qed.

Lemma pre_save_document_eq (host : jsstring -> option Z)
      (isModified : string -> bool) (this : IEvent) :
  fst (pre_save host isModified this)
  = with_slug_and_date (slug_after isModified this)
                       (date_after host isModified this) this.
Proof.
  rewrite pre_save_unfold. unfold date_rejected, date_after.
  rewrite after_title_document.
  destruct (isModified "date"%string); cbn [andb fst]; [|reflexivity].
  destruct (JsDate.new_Date host (date this)) as [t|]; cbn [fst];
    [|reflexivity].
  rewrite normalized_date_isoDate. reflexivity.
Qed.

(** X6.  What the hook does to the document: it assigns the slug (when the
    title is modified) and the date (when the date is modified and parses)
    and leaves every other field, and every unmodified path, as it was;
    this also holds when the hook ends with an error. *)
Theorem pre_save_document (host : jsstring -> option Z)
        (isModified : string -> bool) (this : IEvent) :
  fst (pre_save host isModified this)
  = with_slug_and_date
      (if isModified "title"%string
       then slug_of_title (title this) else slug this)
      (if isModified "date"%string then
         match JsDate.new_Date host (date this) with
         | Some t => JsDate.isoDate t
         | None => date this
         end
       else date this)
      this.
Proof. exact (pre_save_document_eq host isModified this). Qed.

Lemma parse_ymd_isoDate (t : Z) :
  0 <= JsDate.YearFromTime t <= 9999 ->
  JsDate.parse_ymd (JsDate.isoDate t) = Some (JsDate.Day t, []).
Proof.
  intros Hy. unfold JsDate.isoDate. rewrite (isoYear_four_digits _ Hy).
  pose proof (MonthFromTime_range t) as Hm.
  pose proof (DateFromTime_range t) as Hd.
  rewrite <- (app_nil_r (JsDate.digits 2 (JsDate.DateFromTime t))).
  rewrite parse_ymd_digits; try lia.
  - replace (JsDate.MonthFromTime t + 1 - 1) with (JsDate.MonthFromTime t)
      by lia.
    now rewrite MakeDay_of_time.
  - replace (JsDate.MonthFromTime t + 1 - 1) with (JsDate.MonthFromTime t)
      by lia.
    exact Hd.
Qed.

(** A normalized date is parsed again, whatever the engine, and normalizes
    to itself. *)
Lemma isoDate_fixed (host : jsstring -> option Z) (t : Z) :
  0 <= JsDate.YearFromTime t <= 9999 ->
  exists t', JsDate.new_Date host (JsDate.isoDate t) = Some t'
             /\ JsDate.isoDate t' = JsDate.isoDate t.
Proof.
  intros Hy.
  destruct (date_only_round_trip host (JsDate.isoDate t) (JsDate.Day t)
              (parse_ymd_isoDate t Hy)) as [A B].
  eexists. split; [exact A | exact B].
Qed.

(** X7.  The hook is idempotent: run again on the document it has left
    (dates within the years 0 to 9999), it completes and changes nothing. *)
Theorem pre_save_idempotent (host : jsstring -> option Z)
        (isModified : string -> bool) (this : IEvent) :
  snd (pre_save host isModified this) = Return tt ->
  (forall t, isModified "date"%string = true ->
             JsDate.new_Date host (date this) = Some t ->
             0 <= JsDate.YearFromTime t <= 9999) ->
  pre_save host isModified (fst (pre_save host isModified this))
  = (fst (pre_save host isModified this), Return tt).
Proof.
  intros H1 H2.
  rewrite pre_save_result in H1.
  destruct (date_rejected host isModified this) eqn:Dr; [discriminate|].
  destruct (time_rejected isModified this) eqn:Tr; [discriminate|]. clear H1.
  set (d' := fst (pre_save host isModified this)).
  assert (Ed : d' = with_slug_and_date (slug_after isModified this)
                      (date_after host isModified this) this)
    by apply pre_save_document_eq.
  assert (Tt : title d' = title this) by (rewrite Ed; reflexivity).
  assert (Tm : time d' = time this) by (rewrite Ed; reflexivity).
  assert (Dd : date d' = date_after host isModified this)
    by (rewrite Ed; reflexivity).
  assert (Sd : slug d' = slug_after isModified this)
    by (rewrite Ed; reflexivity).
  assert (Da : date_after host isModified d' = date d'
               /\ date_rejected host isModified d' = false).
  { unfold date_after at 1, date_rejected. rewrite Dd. unfold date_after.
    unfold date_rejected in Dr.
    destruct (isModified "date"%string) eqn:Md; [|split; reflexivity].
    destruct (JsDate.new_Date host (date this)) as [t|] eqn:Nt;
      [|discriminate].
    destruct (isoDate_fixed host t (H2 t eq_refl eq_refl)) as [t' [A B]].
    rewrite A. split; [exact B | reflexivity]. }
  destruct Da as [Da Dr'].
  assert (Sa : slug_after isModified d' = slug d').
  { unfold slug_after at 1. rewrite Tt.
    destruct (isModified "title"%string) eqn:Mt; [|reflexivity].
    rewrite Sd. unfold slug_after. now rewrite Mt. }
  assert (F : fst (pre_save host isModified d') = d').
  { rewrite pre_save_document_eq, Sa, Da. apply with_slug_and_date_self. }
  assert (R : snd (pre_save host isModified d') = Return tt).
  { rewrite pre_save_result, Dr'. unfold time_rejected in *.
    rewrite Tm, Tr. reflexivity. }
  destruct (pre_save host isModified d') as [x r]. cbn [fst snd] in F, R.
  now subst.
Qed.

Lemma pre_save_idempotent_witness :
  snd (pre_save Samples.no_host
         (Samples.modified ["title"; "date"; "time"]%string)
         (Samples.event "Rust Meetup" "draft" "2025-03-01T22:00:00-03:00" "18:30"))
  = Return tt
  /\ fst (pre_save Samples.no_host
            (Samples.modified ["title"; "date"; "time"]%string)
            (fst (pre_save Samples.no_host
                    (Samples.modified ["title"; "date"; "time"]%string)
                    (Samples.event "Rust Meetup" "draft"
                       "2025-03-01T22:00:00-03:00" "18:30"))))
     = Samples.event "Rust Meetup" "rust-meetup" "2025-03-02" "18:30".
Proof.
  split; [vm_compute; reflexivity|].
  rewrite (pre_save_idempotent Samples.no_host
             (Samples.modified ["title"; "date"; "time"]%string)
             (Samples.event "Rust Meetup" "draft"
                "2025-03-01T22:00:00-03:00" "18:30")).
  - vm_compute. reflexivity.
  - vm_compute. reflexivity.
  - intros t _ Ht. vm_compute in Ht. injection Ht as <-.
    split; vm_compute; discriminate.
Defined.

(** X8.  What [save] writes for a new document (title, date and time all
    modified): when the hook completes, the document handed to the backend
    has the title it was given, the slug derived from it, a time of the
    form [H:MM] or [HH:MM] on a 24-hour clock, and the date part of the UTC
    ISO string of the date it was given. *)
Theorem save_writes_normalized (host : jsstring -> option Z)
        (isModified : string -> bool)
        (write : list IEvent -> IEvent -> list IEvent * result unit)
        (docs : list IEvent) (this : IEvent) :
  isModified "title"%string = true ->
  isModified "date"%string = true ->
  isModified "time"%string = true ->
  snd (pre_save host isModified this) = Return tt ->
  exists doc t,
    save host isModified write docs this = write docs doc
    /\ title doc = title this
    /\ slug doc = slug_of_title (title this)
    /\ is_HH_MM (time doc) = true
    /\ JsDate.new_Date host (date this) = Some t
    /\ date doc = JsDate.isoDate t.
Proof.
  intros Mt Md Mm H.
  assert (S := save_accepted host isModified write docs this H).
  rewrite pre_save_result in H.
  destruct (date_rejected host isModified this) eqn:Dr; [discriminate|].
  destruct (time_rejected isModified this) eqn:Tr; [discriminate|]. clear H.
  unfold date_rejected in Dr. rewrite Md in Dr.
  destruct (JsDate.new_Date host (date this)) as [t|] eqn:Nt; [|discriminate].
  unfold time_rejected in Tr. rewrite Mm in Tr. cbn [andb] in Tr.
  apply negb_false_iff in Tr. rewrite timeRegex_is_HH_MM in Tr.
  exists (fst (pre_save host isModified this)), t.
  split; [exact S|]. rewrite pre_save_document_eq.
  unfold slug_after, date_after. rewrite Mt, Md, Nt. cbn.
  repeat split; try reflexivity. exact Tr.
Qed.

Lemma save_writes_normalized_witness :
  snd (pre_save Samples.no_host
         (Samples.modified ["title"; "date"; "time"]%string)
         (Samples.event "Rust Meetup" "draft" "2025-03-01T22:00:00-03:00" "18:30"))
  = Return tt
  /\ exists doc t,
       EventModel.save Samples.no_host
         (Samples.modified ["title"; "date"; "time"]%string)
         (fun docs d => (d :: docs, Return tt)) []
         (Samples.event "Rust Meetup" "draft" "2025-03-01T22:00:00-03:00" "18:30")
       = ([doc], Return tt)
       /\ title doc = js "Rust Meetup"
       /\ slug doc = slug_of_title (js "Rust Meetup")
       /\ is_HH_MM (time doc) = true
       /\ JsDate.new_Date Samples.no_host (js "2025-03-01T22:00:00-03:00")
          = Some t
       /\ date doc = JsDate.isoDate t.
Proof.
  split; [vm_compute; reflexivity|].
  exact (save_writes_normalized Samples.no_host
           (Samples.modified ["title"; "date"; "time"]%string)
           (fun docs d => (d :: docs, Return tt)) []
           (Samples.event "Rust Meetup" "draft"
              "2025-03-01T22:00:00-03:00" "18:30")
           eq_refl eq_refl eq_refl eq_refl).
Defined.
End HookExtras.

(** ** The handler as a whole *)

Section RouteExtras.
Import Route Terms.

(** Every run of the handler, by cases. *)
Lemma GET_cases (param : value) (w : World) :
  GET param w =
  if negb (valid_slug param) then ([], Return (refusal param))
  else
    let key := sanitize (string_of param) in
    match connectToDatabase w with
    | (tr, Throw e) => (tr ++ [ConsoleError e], Return (GET_catch e))
    | (tr, Return _) =>
        match query_fault w key with
        | Some e =>
            ((tr ++ [FindOne key]) ++ [ConsoleError e], Return (GET_catch e))
        | None => (tr ++ [FindOne key], Return (answer (lookup w key)))
        end
    end.
Proof.
  unfold GET, valid_slug, refusal. rewrite GET_try_unfold.
  destruct (shape_ok param); cbn [negb andb]; [|reflexivity].
  destruct (test slugPattern (sanitize (string_of param)));
    cbn [negb]; [|reflexivity].
  cbv zeta. unfold bind at 1.
  destruct (connectToDatabase w) as [tr [[]|e]]; [|reflexivity].
  unfold bind, findOne, lookup, answer.
  destruct (query_fault w (sanitize (string_of param))); [reflexivity|].
  destruct (find _ (collection w)); reflexivity.
Qed.

Lemma GET_catch_error (e : thrown) :
  exists message st,
    GET_catch e = NextResponse_json (ErrorBody message) st
    /\ In (message, st) (skipn 2 error_messages)
    /\ message <> js "Event not found".
Proof.
  unfold GET_catch. destruct e as [n m|].
  - destruct (includes (js "MONGODB_URI") m).
    + do 2 eexists. split; [reflexivity|]. split; [|discriminate].
      cbn. right; right; now left.
    + destruct (_ || _).
      * do 2 eexists. split; [reflexivity|]. split; [|discriminate].
        cbn. now left.
      * do 2 eexists. split; [reflexivity|]. split; [|discriminate].
        cbn. right; right; right; now left.
  - do 2 eexists. split; [reflexivity|]. split; [|discriminate].
    cbn. right; right; right; now left.
Qed.

Lemma backend_answers_iff (w : World) (key : jsstring) :
  backend_answers w key = true
  <-> snd (connectToDatabase w) = Return tt /\ query_fault w key = None.
Proof.
  unfold backend_answers. rewrite connectToDatabase_cases.
  destruct (env_truthy (MONGODB_URI w)); cbn [negb andb];
    [|split; [discriminate | intros [H _]; discriminate]].
  destruct (global_mongoose_conn w); cbn [orb andb snd].
  - destruct (query_fault w key); split; try discriminate; try tauto.
    intros [_ H]. discriminate.
  - destruct (connect w _); cbn [andb];
      [split; [discriminate | intros [H _]; discriminate]|].
    destruct (query_fault w key); split; try discriminate; try tauto.
    intros [_ H]. discriminate.
Qed.


(** X10.  The handler never answers with a document other than one of the
    collection whose slug is the sanitized parameter: a success response
    has status 200, the parameter was valid, the backend was reached and
    answered, and the document is the first one stored under that slug. *)
Theorem GET_success_sound (param : value) (w : World)
        (ev : EventModel.IEvent) (st : Z) :
  snd (GET param w) = Return (NextResponse_json (SuccessBody ev) st) ->
  st = 200%Z
  /\ valid_slug param = true
  /\ backend_answers w (sanitize (string_of param)) = true
  /\ lookup w (sanitize (string_of param)) = Some ev
  /\ In ev (collection w)
  /\ EventModel.slug ev = sanitize (string_of param).
Proof.
  rewrite GET_cases. intros H.
  destruct (valid_slug param) eqn:V; cbn [negb] in H.
  - cbv zeta in H.
    assert (B := backend_answers_iff w (sanitize (string_of param))).
    destruct (connectToDatabase w) as [tr [[]|e]].
    + destruct (query_fault w (sanitize (string_of param))) as [e|].
      * cbn [snd] in H. destruct (GET_catch_error e) as [m [s' [E _]]].
        rewrite E in H. discriminate.
      * cbn [snd] in H.
        destruct (lookup w (sanitize (string_of param))) as [ev'|] eqn:L;
          [|discriminate].
        cbn [answer] in H. unfold NextResponse_json in H.
        assert (E1 : ev' = ev) by congruence.
        assert (E2 : st = 200%Z) by congruence. subst ev' st. clear H.
        assert (L' := L). unfold lookup in L'.
        apply find_some in L' as [Hin Heq]. apply jsstring_eqb_eq in Heq.
        split; [reflexivity|]. split; [reflexivity|].
        split; [apply B; split; reflexivity|].
        split; [reflexivity|]. split; assumption.
    + cbn [snd] in H. destruct (GET_catch_error e) as [m [s' [E _]]].
      rewrite E in H. discriminate.
  - cbn [snd] in H. unfold refusal in H. destruct (shape_ok param);
      discriminate.
Qed.

Lemma GET_success_sound_witness :
  snd (GET (VString (js " My-Event-2025 "))
         (Samples.world (Some Samples.uri) false [Samples.my_event]))
  = Return (NextResponse_json (SuccessBody Samples.my_event) 200)
  /\ EventModel.slug Samples.my_event
     = sanitize (string_of (VString (js " My-Event-2025 "))).
Proof.
  assert (H : snd (GET (VString (js " My-Event-2025 "))
                     (Samples.world (Some Samples.uri) false
                        [Samples.my_event]))
              = Return (NextResponse_json (SuccessBody Samples.my_event) 200))
    by reflexivity.
  split; [exact H|].
  apply (GET_success_sound _ _ _ _ H).
Defined.

(** X11.  "Event not found" is answered exactly when the parameter is
    valid, the backend was reached and answered, and no document of the
    collection has the sanitized slug. *)
Theorem GET_not_found_iff (param : value) (w : World) :
  snd (GET param w)
  = Return (NextResponse_json (ErrorBody (js "Event not found")) 404)
  <-> valid_slug param = true
      /\ backend_answers w (sanitize (string_of param)) = true
      /\ forall ev, In ev (collection w) ->
                    EventModel.slug ev <> sanitize (string_of param).
Proof.
  rewrite GET_cases.
  assert (B := backend_answers_iff w (sanitize (string_of param))).
  split.
  - intros H. destruct (valid_slug param) eqn:V; cbn [negb] in H.
    + cbv zeta in H. destruct (connectToDatabase w) as [tr [[]|e]].
      * destruct (query_fault w (sanitize (string_of param))) as [e|].
        -- cbn [snd] in H. destruct (GET_catch_error e) as [m [s' [E [_ N]]]].
           rewrite E in H. unfold NextResponse_json in H.
           exfalso. apply N. congruence.
        -- cbn [snd] in H.
           destruct (lookup w (sanitize (string_of param))) as [ev'|] eqn:L;
             [discriminate|].
           split; [reflexivity|]. split; [apply B; split; reflexivity|].
           intros ev Hin Heq. unfold lookup in L.
           pose proof (find_none _ _ L ev Hin) as X. cbn beta in X.
           rewrite Heq, jsstring_eqb_refl in X. discriminate.
      * cbn [snd] in H. destruct (GET_catch_error e) as [m [s' [E [_ N]]]].
        rewrite E in H. unfold NextResponse_json in H.
        exfalso. apply N. congruence.
    + cbn [snd] in H. unfold refusal in H. destruct (shape_ok param);
        discriminate.
  - intros [V [A N]]. rewrite V. cbn [negb]. cbv zeta.
    apply B in A as [A1 A2].
    destruct (connectToDatabase w) as [tr [[]|e]]; [|discriminate].
    rewrite A2. cbn [snd]. unfold lookup.
    destruct (find _ (collection w)) as [ev|] eqn:F; [|reflexivity].
    apply find_some in F as [Hin Heq]. apply jsstring_eqb_eq in Heq.
    now elim (N ev Hin).
Qed.

(** X12.  Every run ends with a response, and the response is a success
    with status 200 or one of six fixed pairs of message and status: no
    text of a thrown error reaches the client. *)
Theorem GET_response_closed (param : value) (w : World) :
  exists r, snd (GET param w) = Return r
    /\ ((exists ev, r = NextResponse_json (SuccessBody ev) 200)
        \/ (exists message st, r = NextResponse_json (ErrorBody message) st
                               /\ In (message, st) error_messages)).
Proof.
  rewrite GET_cases.
  assert (C : forall e, exists message st,
                GET_catch e = NextResponse_json (ErrorBody message) st
                /\ In (message, st) error_messages).
  { intros e. destruct (GET_catch_error e) as [m [s' [E [I _]]]].
    exists m, s'. split; [exact E|]. cbn in I |- *. tauto. }
  destruct (valid_slug param); cbn [negb].
  - cbv zeta. destruct (connectToDatabase w) as [tr [[]|e]].
    + destruct (query_fault w (sanitize (string_of param))) as [e|].
      * eexists. split; [reflexivity|]. right. apply C.
      * eexists. split; [reflexivity|].
        destruct (lookup w (sanitize (string_of param))) as [ev|].
        -- left. now exists ev.
        -- right. do 2 eexists. split; [reflexivity|]. cbn. tauto.
    + eexists. split; [reflexivity|]. right. apply C.
  - eexists. split; [reflexivity|]. right. unfold refusal.
    destruct (shape_ok param); do 2 eexists; (split; [reflexivity|]);
      cbn; tauto.
Qed.

Lemma connectToDatabase_trace (w : World) :
  filter is_FindOne (fst (connectToDatabase w)) = []
  /\ filter is_Connect (fst (connectToDatabase w))
     = if env_truthy (MONGODB_URI w) && negb (global_mongoose_conn w)
       then [Connect (env_string (MONGODB_URI w))] else [].
Proof.
  rewrite connectToDatabase_cases.
  destruct (env_truthy (MONGODB_URI w)); cbn [negb andb]; [|split; reflexivity].
  destruct (global_mongoose_conn w); split; reflexivity.
Qed.

(** X13.  The backend is queried at most once in a run, only with the
    sanitized parameter, which consists of [a-z0-9-] alone, and only after
    [connectToDatabase] has returned. *)
Theorem GET_queries_sanitized_key (param : value) (w : World) :
  (List.length (filter is_FindOne (fst (GET param w))) <= 1)%nat
  /\ forall key, In (FindOne key) (fst (GET param w)) ->
       key = sanitize (string_of param)
       /\ key <> []
       /\ forallb is_slug_char key = true
       /\ snd (connectToDatabase w) = Return tt.
Proof.
  rewrite GET_cases.
  destruct (connectToDatabase_trace w) as [NF _].
  destruct (valid_slug param) eqn:V; cbn [negb];
    [|split; [cbn; lia | intros key []]].
  cbv zeta.
  assert (P : sanitize (string_of param) <> []
              /\ forallb is_slug_char (sanitize (string_of param)) = true).
  { unfold valid_slug in V. apply andb_true_iff in V as [_ V].
    unfold slugPattern in V. rewrite test_anchored_plus in V.
    destruct (sanitize (string_of param)); [discriminate|].
    split; [discriminate | exact V]. }
  assert (NI : forall key tr, filter is_FindOne tr = [] ->
                 ~ In (FindOne key) tr).
  { intros key tr E Hin.
    assert (X : In (FindOne key) (filter is_FindOne tr))
      by (apply filter_In; split; [exact Hin | reflexivity]).
    rewrite E in X. contradiction. }
  destruct (connectToDatabase w) as [tr [[]|e]]; cbn [fst snd] in *.
  - destruct (query_fault w (sanitize (string_of param))) as [e|];
      cbn [fst]; rewrite ?filter_app, NF; cbn; (split; [lia|]);
      intros key; rewrite ?in_app_iff; cbn [In];
      intros H;
      repeat match goal with
             | H : _ \/ _ |- _ => destruct H as [H | H]
             end;
      try contradiction; try discriminate;
      try (now elim (NI key tr NF));
      injection H as <-; repeat split; try apply P; reflexivity.
  - rewrite filter_app, NF. cbn. split; [lia|].
    intros key. rewrite in_app_iff. cbn [In]. intros [H | [H | []]];
      [now elim (NI key tr NF) | discriminate].
Qed.

Lemma GET_queries_sanitized_key_witness :
  In (FindOne (js "my-event-2025"))
     (fst (GET (VString (js " My-Event-2025 "))
             (Samples.world (Some Samples.uri) false [Samples.my_event])))
  /\ js "my-event-2025" = sanitize (string_of (VString (js " My-Event-2025 "))).
Proof.
  assert (H : In (FindOne (js "my-event-2025"))
                (fst (GET (VString (js " My-Event-2025 "))
                        (Samples.world (Some Samples.uri) false
                           [Samples.my_event]))))
    by (vm_compute; tauto).
  split; [exact H|].
  apply (proj2 (GET_queries_sanitized_key _ _) _ H).
Defined.

(** X14.  [connect] is called exactly when the parameter is valid, the
    connection string is set and no connection is cached, then once and
    with the connection string; otherwise it is not called. *)
Theorem GET_connects_when_needed (param : value) (w : World) :
  filter is_Connect (fst (GET param w))
  = if valid_slug param && env_truthy (MONGODB_URI w)
       && negb (global_mongoose_conn w)
    then [Connect (env_string (MONGODB_URI w))] else [].
Proof.
  rewrite GET_cases.
  destruct (connectToDatabase_trace w) as [_ C].
  destruct (valid_slug param); cbn [negb andb]; [|reflexivity].
  cbv zeta. destruct (connectToDatabase w) as [tr [[]|e]]; cbn [fst] in *.
  - destruct (query_fault w (sanitize (string_of param)));
      cbn [fst]; rewrite ?filter_app, C; cbn [filter is_Connect];
      now rewrite ?app_nil_r.
  - rewrite filter_app, C. cbn [filter is_Connect]. now rewrite app_nil_r.
Qed.
End RouteExtras.

(** ** From the hook to the handler *)

Section RoundTrip.
Import EventModel Route Terms.

(** X15.  An event saved through the hook is found again: when the title
    has a word character and no underscore, a request whose parameter
    sanitizes to the stored slug (the slug itself, or the slug in another
    case or with white space around it) is answered 200 with the saved
    document, in a world whose backend answers and whose collection has
    that document in front. *)
Theorem saved_event_is_found
        (host : jsstring -> option Z) (isModified : string -> bool)
        (this : IEvent) (s : jsstring) (w : World) (others : list IEvent) :
  isModified "title"%string = true ->
  has_word (toLowerCase (title this)) = true ->
  has_underscore (title this) = false ->
  sanitize s = slug (fst (pre_save host isModified this)) ->
  collection w = fst (pre_save host isModified this) :: others ->
  backend_answers w (sanitize s) = true ->
  snd (GET (VString s) w)
  = Return (NextResponse_json
              (SuccessBody (fst (pre_save host isModified this))) 200).
Proof.
  intros Mt Hw Hu Es Ec Hb.
  set (saved := fst (pre_save host isModified this)) in *.
  assert (Ss : slug saved = slug_of_title (title this))
    by (apply pre_save_slug; exact Mt).
  assert (P : test slugPattern (sanitize s) = true).
  { rewrite Es, Ss, slugPattern_slug_of_title, Hw, Hu. reflexivity. }
  assert (Sh : forallb is_space s = false).
  { rewrite <- sanitize_blank. unfold slugPattern in P.
    rewrite test_anchored_plus in P.
    destruct (sanitize s) as [|c l]; [discriminate|].
    cbn [forallb] in *. apply andb_true_iff in P as [Pc _].
    assert (X : is_space c = false) by (clear - Pc; classes).
    now rewrite X. }
  apply backend_answers_iff in Hb as [B1 B2].
  rewrite (GET_connected (VString s) w).
  - cbn [string_of]. rewrite Ec. cbn [find]. rewrite Es, jsstring_eqb_refl.
    reflexivity.
  - unfold valid_slug. cbn [shape_ok string_of]. now rewrite Sh, P.
  - exact B1.
  - exact B2.
Qed.

Lemma saved_event_is_found_witness :
  sanitize (js "  RUST-meetup ")
  = slug (fst (pre_save Samples.no_host (Samples.modified ["title"%string])
                 (Samples.event "Rust Meetup" "draft" "2025-03-02" "18:30")))
  /\ snd (GET (VString (js "  RUST-meetup "))
            (Samples.world (Some Samples.uri) false
               [fst (pre_save Samples.no_host
                       (Samples.modified ["title"%string])
                       (Samples.event "Rust Meetup" "draft" "2025-03-02"
                                      "18:30"))]))
     = Return (NextResponse_json
                 (SuccessBody
                    (Samples.event "Rust Meetup" "rust-meetup" "2025-03-02"
                                   "18:30")) 200).
Proof.
  split; [vm_compute; reflexivity|].
  rewrite (saved_event_is_found Samples.no_host
             (Samples.modified ["title"%string])
             (Samples.event "Rust Meetup" "draft" "2025-03-02" "18:30")
             (js "  RUST-meetup ")
             (Samples.world (Some Samples.uri) false
                [fst (pre_save Samples.no_host
                        (Samples.modified ["title"%string])
                        (Samples.event "Rust Meetup" "draft" "2025-03-02"
                                       "18:30"))])
             []); try (vm_compute; reflexivity).
Defined.
End RoundTrip.

(** ** The times the hook admits *)

Section TimeExtras.
Import EventModel Terms JsDate.
Local Open Scope Z_scope.

Lemma in_range_char (lo hi : N) (v : Z) :
  Z.of_N lo <= 48 + v <= Z.of_N hi ->
  in_range lo hi (Z.to_N (48 + v)) = true.
Proof.
  intros H. unfold in_range. apply andb_true_iff.
  split; apply N.leb_le; lia.
Qed.

Lemma in_range_value (lo hi c : N) :
  in_range lo hi c = true ->
  Z.of_N lo <= Z.of_N c <= Z.of_N hi.
Proof.
  unfold in_range. intros H. apply andb_true_iff in H as [A B].
  apply N.leb_le in A, B. lia.
Qed.

Lemma digits_one (c : N) :
  in_range 48 57 c = true -> digits 1 (Z.of_N c - 48) = [c].
Proof.
  intros H. apply in_range_value in H. cbn [digits app].
  rewrite Z.mod_small by lia. f_equal. lia.
Qed.

Lemma digits_two (a b : N) :
  in_range 48 57 a = true -> in_range 48 57 b = true ->
  digits 2 (10 * (Z.of_N a - 48) + (Z.of_N b - 48)) = [a; b].
Proof.
  intros Ha Hb. apply in_range_value in Ha, Hb. cbn [digits app].
  replace ((10 * (Z.of_N a - 48) + (Z.of_N b - 48)) / 10)
    with (Z.of_N a - 48) by (Z.to_euclidean_division_equations; lia).
  replace ((10 * (Z.of_N a - 48) + (Z.of_N b - 48)) mod 10)
    with (Z.of_N b - 48) by (Z.to_euclidean_division_equations; lia).
  rewrite Z.mod_small by lia. f_equal; [lia | f_equal; lia].
Qed.

Lemma in_range_wider (lo hi lo' hi' c : N) :
  (lo' <= lo)%N -> (hi <= hi')%N ->
  in_range lo hi c = true -> in_range lo' hi' c = true.
Proof.
  unfold in_range. intros A B H. apply andb_true_iff in H as [H1 H2].
  apply N.leb_le in H1, H2. apply andb_true_iff. split; apply N.leb_le; lia.
Qed.

Lemma is_HH_MM_denotes (s : jsstring) :
  is_HH_MM s = true ->
  exists h m, 0 <= h <= 23 /\ 0 <= m <= 59
              /\ (s = two_digit_time h m
                  \/ (h <= 9 /\ s = one_digit_time h m)).
Proof.
  unfold is_HH_MM, two_digit_time, one_digit_time.
  destruct s as [|a [|b [|c [|d [|e [|f s]]]]]]; try discriminate.
  - intros H. apply andb_true_iff in H as [H Hm2].
    apply andb_true_iff in H as [H Hm1]. apply andb_true_iff in H as [Hh Hc].
    apply N.eqb_eq in Hc. subst b.
    pose proof (in_range_value _ _ _ Hh) as Vh.
    pose proof (in_range_value _ _ _ Hm1) as V1.
    pose proof (in_range_value _ _ _ Hm2) as V2.
    exists (Z.of_N a - 48), (10 * (Z.of_N c - 48) + (Z.of_N d - 48)).
    split; [lia|]. split; [lia|]. right. split; [lia|].
    rewrite digits_one by exact Hh.
    rewrite digits_two;
      [reflexivity | now apply (in_range_wider 48 53) | exact Hm2].
  - intros H. apply andb_true_iff in H as [H Hm2].
    apply andb_true_iff in H as [H Hm1]. apply andb_true_iff in H as [Hh Hc].
    apply N.eqb_eq in Hc. subst c.
    pose proof (in_range_value _ _ _ Hm1) as V1.
    pose proof (in_range_value _ _ _ Hm2) as V2.
    exists (10 * (Z.of_N a - 48) + (Z.of_N b - 48)),
           (10 * (Z.of_N d - 48) + (Z.of_N e - 48)).
    assert (Hab : in_range 48 57 a = true /\ in_range 48 57 b = true
                  /\ 10 * (Z.of_N a - 48) + (Z.of_N b - 48) <= 23
                  /\ 0 <= 10 * (Z.of_N a - 48) + (Z.of_N b - 48)).
    { apply orb_true_iff in Hh as [Hh | Hh];
        apply andb_true_iff in Hh as [H1 H2].
      - pose proof (in_range_value _ _ _ H1).
        pose proof (in_range_value _ _ _ H2).
        split; [now apply (in_range_wider 48 49)|]. split; [exact H2 | lia].
      - apply N.eqb_eq in H1. subst a.
        pose proof (in_range_value _ _ _ H2).
        split; [reflexivity|].
        split; [now apply (in_range_wider 48 51) | lia]. }
    destruct Hab as [Ha [Hb [Hle Hge]]].
    split; [lia|]. split; [lia|]. left.
    rewrite (digits_two a b Ha Hb).
    rewrite digits_two;
      [reflexivity | now apply (in_range_wider 48 53) | exact Hm2].
Qed.

Lemma two_digit_time_ok (h m : Z) :
  0 <= h <= 23 -> 0 <= m <= 59 -> is_HH_MM (two_digit_time h m) = true.
Proof.
  intros Hh Hm. unfold two_digit_time. cbn [digits app].
  change (js ":") with [58%N]. cbn [app]. unfold is_HH_MM.
  assert (M1 : in_range 48 53 (Z.to_N (48 + (m / 10) mod 10)) = true)
    by (apply in_range_char; cbn [Z.of_N]; Z.to_euclidean_division_equations; lia).
  assert (M2 : in_range 48 57 (Z.to_N (48 + m mod 10)) = true)
    by (apply in_range_char; cbn [Z.of_N]; Z.to_euclidean_division_equations; lia).
  rewrite M1, M2, !andb_true_r. cbn [N.eqb Pos.eqb andb].
  destruct (Z_lt_dec h 20) as [L | G].
  - assert (A : in_range 48 49 (Z.to_N (48 + (h / 10) mod 10)) = true)
      by (apply in_range_char; cbn [Z.of_N]; Z.to_euclidean_division_equations; lia).
    assert (B : in_range 48 57 (Z.to_N (48 + h mod 10)) = true)
      by (apply in_range_char; cbn [Z.of_N]; Z.to_euclidean_division_equations; lia).
    now rewrite A, B.
  - assert (A : Z.to_N (48 + (h / 10) mod 10) = 50%N)
      by (Z.to_euclidean_division_equations; lia).
    assert (B : in_range 48 51 (Z.to_N (48 + h mod 10)) = true)
      by (apply in_range_char; cbn [Z.of_N]; Z.to_euclidean_division_equations; lia).
    rewrite A, B. reflexivity.
Qed.

Lemma one_digit_time_ok (h m : Z) :
  0 <= h <= 9 -> 0 <= m <= 59 -> is_HH_MM (one_digit_time h m) = true.
Proof.
  intros Hh Hm. unfold one_digit_time. cbn [digits app].
  change (js ":") with [58%N]. cbn [app]. unfold is_HH_MM.
  assert (M1 : in_range 48 53 (Z.to_N (48 + (m / 10) mod 10)) = true)
    by (apply in_range_char; cbn [Z.of_N]; Z.to_euclidean_division_equations; lia).
  assert (M2 : in_range 48 57 (Z.to_N (48 + m mod 10)) = true)
    by (apply in_range_char; cbn [Z.of_N]; Z.to_euclidean_division_equations; lia).
  assert (A : in_range 48 57 (Z.to_N (48 + h mod 10)) = true)
    by (apply in_range_char; cbn [Z.of_N]; Z.to_euclidean_division_equations; lia).
  rewrite M1, M2, A. reflexivity.
Qed.

(** X16.  The time check admits exactly the times of a 24-hour clock
    written [HH:MM], or [H:MM] for the hours below ten: hours 0 to 23,
    minutes 00 to 59. *)
Theorem timeRegex_denotes (s : jsstring) :
  test timeRegex s = true
  <-> exists h m, 0 <= h <= 23 /\ 0 <= m <= 59
                  /\ (s = two_digit_time h m
                      \/ (h <= 9 /\ s = one_digit_time h m)).
Proof.
  rewrite timeRegex_is_HH_MM. split; [apply is_HH_MM_denotes|].
  intros [h [m [Hh [Hm [-> | [H9 ->]]]]]].
  - now apply two_digit_time_ok.
  - apply one_digit_time_ok; lia.
Qed.
End TimeExtras.

(** ** Dates: the day written and the ISO string read back *)

Section DateExtras.
Import JsDate.
Local Open Scope Z_scope.

Lemma isoDate_of_day (t1 t2 : Z) : Day t1 = Day t2 -> isoDate t1 = isoDate t2.
Proof.
  intros E. unfold isoDate, DateFromTime, MonthFromTime, InLeapYear,
    DayWithinYear, YearFromTime. now rewrite E.
Qed.

(** X17.  The stored date tells the UTC day and nothing else: within the
    years 0 to 9999, two instants get the same date string exactly when
    they fall on the same UTC day. *)
Theorem isoDate_same_day (t1 t2 : Z) :
  0 <= YearFromTime t1 <= 9999 -> 0 <= YearFromTime t2 <= 9999 ->
  (isoDate t1 = isoDate t2 <-> Day t1 = Day t2).
Proof.
  intros H1 H2. split; [|apply isoDate_of_day].
  intros E. pose proof (parse_ymd_isoDate t1 H1) as P1.
  pose proof (parse_ymd_isoDate t2 H2) as P2.
  rewrite E in P1. congruence.
Qed.

Lemma isoDate_same_day_witness :
  (0 <= YearFromTime 1737001800000 <= 9999
   /\ 0 <= YearFromTime 1737071999999 <= 9999)
  /\ isoDate 1737001800000 = isoDate 1737071999999.
Proof.
  assert (H1 : 0 <= YearFromTime 1737001800000 <= 9999)
    by (split; vm_compute; discriminate).
  assert (H2 : 0 <= YearFromTime 1737071999999 <= 9999)
    by (split; vm_compute; discriminate).
  split; [split; assumption|].
  apply (proj2 (isoDate_same_day _ _ H1 H2)). vm_compute. reflexivity.
Defined.

Lemma parse_ymd_isoDate_rest (t : Z) (rest : jsstring) :
  0 <= YearFromTime t <= 9999 ->
  parse_ymd (isoDate t ++ rest) = Some (Day t, rest).
Proof.
  intros Hy. unfold isoDate. rewrite (isoYear_four_digits _ Hy).
  pose proof (MonthFromTime_range t) as Hm.
  pose proof (DateFromTime_range t) as Hd.
  rewrite <- !app_assoc.
  rewrite parse_ymd_digits; try lia.
  - replace (MonthFromTime t + 1 - 1) with (MonthFromTime t) by lia.
    now rewrite MakeDay_of_time.
  - replace (MonthFromTime t + 1 - 1) with (MonthFromTime t) by lia.
    exact Hd.
Qed.

Lemma parse_hms_shape (hs ms ss fs rest : jsstring) :
  List.length hs = 2%nat -> List.length ms = 2%nat ->
  List.length ss = 2%nat -> List.length fs = 3%nat ->
  parse_hms (hs ++ js ":" ++ ms ++ js ":" ++ ss ++ js "." ++ fs ++ rest)
  = match number hs, number ms, number ss with
    | Some h, Some m, Some sec =>
        if (h <=? 23) && (m <=? 59) && (sec <=? 59) then
          match number fs with
          | Some f => Some (MakeTime h m sec f, rest)
          | None => None
          end
        else None
    | _, _, _ => None
    end.
Proof.
  destruct hs as [|h1 [|h2 [|]]]; try discriminate.
  destruct ms as [|m1 [|m2 [|]]]; try discriminate.
  destruct ss as [|s1 [|s2 [|]]]; try discriminate.
  destruct fs as [|f1 [|f2 [|f3 [|]]]]; try discriminate.
  intros _ _ _ _. reflexivity.
Qed.

Lemma time_within_day (t : Z) :
  MakeDate (Day t)
    (MakeTime (HourFromTime t) (MinFromTime t) (SecFromTime t)
       (msFromTime t))
  = t.
Proof.
  unfold MakeDate, MakeTime, Day, HourFromTime, MinFromTime, SecFromTime,
    msFromTime, msPerDay, msPerHour, msPerMinute, msPerSecond.
  Z.to_euclidean_division_equations. lia.
Qed.

Lemma parse_iso_toISOString (t : Z) :
  0 <= YearFromTime t <= 9999 -> parse_iso (toISOString t) = Some t.
Proof.
  intros Hy. unfold parse_iso, toISOString.
  rewrite (parse_ymd_isoDate_rest t _ Hy).
  change (js "T" ++ isoTime t ++ js "Z")
    with (N_of_ascii "T" :: (isoTime t ++ js "Z")).
  cbv iota beta. change (is_char "T" (N_of_ascii "T")) with true.
  cbv iota. unfold isoTime. rewrite <- !app_assoc.
  rewrite parse_hms_shape by apply digits_length.
  assert (Bh : 0 <= HourFromTime t < 24)
    by (unfold HourFromTime; apply Z.mod_pos_bound; lia).
  assert (Bm : 0 <= MinFromTime t < 60)
    by (unfold MinFromTime; apply Z.mod_pos_bound; lia).
  assert (Bs : 0 <= SecFromTime t < 60)
    by (unfold SecFromTime; apply Z.mod_pos_bound; lia).
  assert (Bf : 0 <= msFromTime t < 1000)
    by (unfold msFromTime, msPerSecond; apply Z.mod_pos_bound; lia).
  rewrite !number_digits by (cbn; lia).
  replace ((HourFromTime t <=? 23) && (MinFromTime t <=? 59)
           && (SecFromTime t <=? 59)) with true
    by (symmetry; rewrite !andb_true_iff, !Z.leb_le; lia).
  cbv iota. change (parse_zone (js "Z")) with (Some 0).
  cbv iota. rewrite time_within_day. f_equal. lia.
Qed.

Lemma year_range_time (t : Z) :
  0 <= YearFromTime t <= 9999 -> Z.abs t <= 8640000000000000.
Proof.
  intros Hy. unfold YearFromTime in Hy.
  destruct (YearFromDay_spec (Day t)) as [S1 S2].
  rewrite DayFromYear_succ in S2.
  pose proof (DayFromYear_bounds _ Hy) as B.
  pose proof (DaysInYear_cases (YearFromDay (Day t))) as D.
  unfold Day, msPerDay in *. Z.to_euclidean_division_equations. lia.
Qed.

(** X18.  [toISOString] and [new Date] are inverse on the years 0 to 9999:
    the ISO string of a time value is parsed back to that time value,
    whatever the engine does with other strings. *)
Theorem new_Date_toISOString (host : jsstring -> option Z) (t : Z) :
  0 <= YearFromTime t <= 9999 ->
  new_Date host (toISOString t) = Some t.
Proof.
  intros Hy. unfold new_Date, parse. rewrite (parse_iso_toISOString t Hy).
  unfold TimeClip. pose proof (year_range_time t Hy) as B.
  apply Z.leb_le in B. now rewrite B.
Qed.

Lemma new_Date_toISOString_witness :
  0 <= YearFromTime 1737001800123 <= 9999
  /\ toISOString 1737001800123 = js "2025-01-16T04:30:00.123Z"
  /\ new_Date Samples.no_host (js "2025-01-16T04:30:00.123Z")
     = Some 1737001800123.
Proof.
  assert (H : 0 <= YearFromTime 1737001800123 <= 9999)
    by (split; vm_compute; discriminate).
  split; [exact H|].
  assert (E : toISOString 1737001800123 = js "2025-01-16T04:30:00.123Z")
    by (vm_compute; reflexivity).
  split; [exact E|]. rewrite <- E.
  exact (new_Date_toISOString Samples.no_host 1737001800123 H).
Defined.
End DateExtras.

(** ** What [trim], [includes] and the four replacements compute *)

Section StringExtras.
Import Terms Route.

Lemma trimStart_blank_app (a x : jsstring) :
  forallb is_space a = true -> trimStart (a ++ x) = trimStart x.
Proof.
  induction a as [|c a IH]; [reflexivity|]. cbn [forallb app trimStart].
  intros H. apply andb_true_iff in H as [Hc Ha]. rewrite Hc. now apply IH.
Qed.

Lemma trimStart_app_fixed (u b : jsstring) :
  u <> [] -> starts_with_space u = false -> trimStart (u ++ b) = u ++ b.
Proof.
  destruct u as [|c u]; [congruence|]. intros _ H. cbn in *. now rewrite H.
Qed.

Lemma trim_between (a u b : jsstring) :
  forallb is_space a = true -> forallb is_space b = true ->
  starts_with_space u = false -> ends_with_space u = false ->
  trim (a ++ u ++ b) = u.
Proof.
  intros Ha Hb Hs He. unfold trim, trimEnd.
  rewrite (trimStart_blank_app a _ Ha).
  destruct u as [|c u].
  - cbn [app]. rewrite <- (app_nil_r b), (trimStart_blank_app b [] Hb).
    reflexivity.
  - rewrite trimStart_app_fixed by (assumption || discriminate).
    rewrite rev_app_distr, trimStart_blank_app
      by (now rewrite forallb_rev).
    rewrite (trimStart_fixed _ He). apply rev_involutive.
Qed.

(** X19.  [trim] takes the white space off both ends and nothing else:
    [u] is the trimmed string exactly when the string is [u] between two
    blank strings and [u] neither starts nor ends with white space. *)
Theorem trim_characterised (s u : jsstring) :
  trim s = u
  <-> exists a b,
        s = a ++ u ++ b
        /\ forallb is_space a = true /\ forallb is_space b = true
        /\ starts_with_space u = false /\ ends_with_space u = false.
Proof.
  split.
  - intros <-. destruct (trim_split s) as [a [b [E [Ha Hb]]]].
    exists a, b. repeat split; try assumption.
    + apply trim_starts.
    + apply trim_ends.
  - intros [a [b [-> [Ha [Hb [Hs He]]]]]]. now apply trim_between.
Qed.

Lemma startsWith_iff (n s : jsstring) :
  startsWith n s = true <-> exists b, s = n ++ b.
Proof.
  revert s. induction n as [|x n IH]; intros s.
  - cbn. split; [intros _; now exists s | reflexivity].
  - destruct s as [|c s]; cbn [startsWith].
    + split; [discriminate | intros [b H]; discriminate].
    + rewrite andb_true_iff, N.eqb_eq, IH. split.
      * intros [-> [b ->]]. now exists b.
      * intros [b H]. cbn in H. injection H as -> ->. split; [reflexivity|].
        now exists b.
Qed.

Lemma includes_iff (n s : jsstring) :
  includes n s = true <-> exists a b, s = a ++ n ++ b.
Proof.
  induction s as [|c s IH].
  - cbn [includes]. rewrite orb_false_r, startsWith_iff. split.
    + intros [b H]. now exists [], b.
    + intros [a [b H]]. destruct a as [|x a]; [|discriminate].
      now exists b.
  - cbn [includes]. rewrite orb_true_iff, startsWith_iff, IH. split.
    + intros [[b H] | [a [b H]]].
      * now exists [], b.
      * exists (c :: a), b. cbn. now rewrite H.
    + intros [a [b H]]. destruct a as [|x a].
      * left. now exists b.
      * right. cbn in H. injection H as _ H. now exists a, b.
Qed.

(** X20.  The [catch] block answers "Database configuration error" exactly
    for the [Error] objects whose message has the text MONGODB_URI
    somewhere in it, whatever their name and the rest of the message. *)
Theorem GET_catch_configuration (e : thrown) :
  GET_catch e = error_response "Database configuration error" 500
  <-> exists name before after,
        e = ErrorObject name (before ++ js "MONGODB_URI" ++ after).
Proof.
  unfold error_response, NextResponse_json. split.
  - destruct e as [n m|]; cbn [GET_catch]; [|discriminate].
    destruct (includes (js "MONGODB_URI") m) eqn:I.
    + intros _. apply includes_iff in I as [a [b ->]]. now exists n, a, b.
    + unfold NextResponse_json.
      destruct (jsstring_eqb n (js "CastError")
                || jsstring_eqb n (js "ValidationError")); discriminate.
  - intros [n [a [b ->]]]. cbn [GET_catch].
    assert (I : includes (js "MONGODB_URI") (a ++ js "MONGODB_URI" ++ b)
                = true) by (apply includes_iff; now exists a, b).
    now rewrite I.
Qed.

(** X21.  The four [replace] calls of the slug derivation, run by the
    regular-expression matcher, compute what their comments say: the first
    deletes every unit outside [\w], white space and the hyphen; the second
    and the third put one hyphen for each maximal run of white space, of
    hyphens; the fourth takes the hyphens off both ends. *)
Theorem slug_replacements (s : jsstring) :
  replace re_special [] s = filter is_word_space_hyphen s
  /\ replace re_spaces [hyphen] s = squeeze is_space [hyphen] false s
  /\ replace re_hyphens [hyphen] s = squeeze is_hyphen [hyphen] false s
  /\ replace re_edge_hyphens [] s
     = strip_end is_hyphen (drop_while is_hyphen s).
Proof.
  unfold replace. repeat split.
  - apply (replace_from_special is_word_space_hyphen). lia.
  - apply replace_from_spaces. lia.
  - apply replace_from_hyphens. lia.
  - apply replace_from_edges. lia.
Qed.
End StringExtras.
